(** * Asgard request handler (src/asgard/handler.cpp)

    A shallow embedding of [asgard::Handler::handle] and of the static
    helpers it uses.  The handler sits between navitia (protocol buffers
    [pbnavitia::Request] / [pbnavitia::Response]) and the valhalla routing
    engine.  Everything valhalla provides (costing models, the graph reader,
    the time/distance matrix, its constants and enum encodings) and the
    projector of this repository are collaborators: they are gathered in
    two interfaces, [Scalars] and [Valhalla], and every statement below
    holds for all their implementations. *)

From stdpp Require Import base numbers option list strings gmap.
From Stdlib Require Import DecimalString.

Local Open Scope Z_scope.

(** ** Enumerations named by the source *)

(** [sif::TravelMode]: the three values [mode_map] mentions. *)
Inductive TravelMode := kDrive | kPedestrian | kBicycle.

(** [odin::Costing]: the three values [to_costing] returns and the
    constructor registers with the factory. *)
Inductive Costing := auto_ | pedestrian | bicycle.

(** [pbnavitia::RoutingStatus]. *)
Inductive RoutingStatus := reached | unreached | unknown.

(** [pbnavitia::API]: the two kinds the handler serves, and all the others. *)
Inductive API :=
  | street_network_routing_matrix
  | direct_path
  | other_api (name : string).

#[global] Instance TravelMode_eq_dec : EqDecision TravelMode.
Proof. solve_decision. Defined.
#[global] Instance Costing_eq_dec : EqDecision Costing.
Proof. solve_decision. Defined.
#[global] Instance RoutingStatus_eq_dec : EqDecision RoutingStatus.
Proof. solve_decision. Defined.
#[global] Instance API_eq_dec : EqDecision API.
Proof. solve_decision. Defined.

(** ** Failures

    What ends a call of the handler without a response: the two standard
    exceptions the source can raise, the failed [assert] (which calls
    [abort]), an index outside a protobuf repeated field or a C array
    (undefined behaviour in C++, kept apart here), and whatever a
    collaborator raises. *)
Inductive failure :=
  | std_out_of_range      (* std::map::at, std::unordered_map::at *)
  | std_invalid_argument  (* to_costing *)
  | assertion_failed      (* assert(res.size() == ...) *)
  | index_out_of_bounds   (* mutable_costing_options(i), mode_costing[i] *)
  | collaborator_error (what : string).

Inductive outcome (A : Type) :=
  | Returns (a : A)
  | Fails (e : failure).
Arguments Returns {A} a.
Arguments Fails {A} e.

#[global] Instance failure_eq_dec : EqDecision failure.
Proof. solve_decision. Defined.

(** Sequencing of [E1 = E2].  Since C++17 the right operand is sequenced
    before the left one; before, the order was unspecified.  Line 116 of
    the source has a throwing call on each side, so the model keeps both. *)
Inductive assignment_order := rhs_first | lhs_first.

(** ** Scalars

    [float] is the C++ single-precision type.  Its arithmetic is kept
    abstract: the handler only multiplies and converts. *)
Class Scalars := {
  float : Type;
  (** implicit conversion of an integer argument to a [float] parameter *)
  float_of_int : Z → float;
  (** [a * b] on two floats *)
  float_mul : float → float → float;
  (** [x *= 3.6]: product with the double literal, stored back in a float *)
  float_mul_3_6 : float → float;
}.

(** [uint32_t(x)] *)
Definition to_uint32 (x : Z) : Z := x `mod` 2 ^ 32.

(** The conversion of an unsigned 32-bit value to the [int32] parameter of
    a protobuf setter: values from [2^31] on come out negative. *)
Definition to_int32 (x : Z) : Z := (x + 2 ^ 31) `mod` 2 ^ 32 - 2 ^ 31.

(** The value of [(float)x] for an unsigned 32-bit [x], as the comparison
    of a [uint32_t] with a [float] computes it: [x] itself while it fits the
    24-bit significand of the single format, else the nearest multiple of
    the dropped power of two, ties to the even significand. *)
Definition float_of_uint32 (x : Z) : Z :=
  let e := Z.log2 x - 23 in
  if e <=? 0 then x
  else
    let q := Z.shiftr x e in
    let r := Z.land x (Z.ones e) in
    let half := Z.shiftl 1 (e - 1) in
    Z.shiftl (if (half <? r) || ((r =? half) && Z.odd q) then q + 1 else q) e.

(** [std::to_string] on an integer *)
Definition to_string (n : Z) : string := NilZero.string_of_int (Z.to_int n).

(** ** Protocol messages *)

Section Messages.
Context `{Scalars}.

(** [odin::CostingOptions]: the one field this layer writes; an unset
    optional field leaves the engine's default in force. *)
Record CostingOptions := { walking_speed : option float }.

(** [odin::DirectionsOptions]: the repeated field [costing_options]. *)
Record DirectionsOptions := { costing_options : list CostingOptions }.

(** [pbnavitia::LocationContext] *)
Record LocationContext := { place : string }.

(** [pbnavitia::StreetNetworkRoutingMatrixRequest] *)
Record StreetNetworkRoutingMatrixRequest := {
  origins : list LocationContext;
  destinations : list LocationContext;
  mode : string;
  speed : float;
  max_duration : Z;
}.

(** [pbnavitia::Request] *)
Record Request := {
  requested_api : API;
  sn_routing_matrix : StreetNetworkRoutingMatrixRequest;
}.

(** [pbnavitia::RoutingElement], as [add_routing_response] creates it and
    the loop fills it. *)
Record RoutingElement := {
  duration : Z;
  routing_status : RoutingStatus;
}.

(** [pbnavitia::StreetNetworkRoutingRow] *)
Record StreetNetworkRoutingRow := { routing_response : list RoutingElement }.

(** [pbnavitia::StreetNetworkRoutingMatrix] *)
Record StreetNetworkRoutingMatrix := { rows : list StreetNetworkRoutingRow }.

(** [pbnavitia::Response]; [Response()] has no matrix. *)
Record Response := { response_sn_routing_matrix : option StreetNetworkRoutingMatrix }.

(** [thor::TimeDistance]; both fields are [uint32_t]. *)
Record TimeDistance := { time : Z; dist : Z }.
End Messages.

(** ** The routing engine *)

Class Valhalla `{Scalars} := {
  (** [thor::kMaxCost], a [float] constant of the engine (valhalla writes
      [99999999.9999f], whose value is 100000000): its value, which is one
      the single format has *)
  kMaxCost : Z;
  kMaxCost_float : float_of_uint32 kMaxCost = kMaxCost;
  kTimeDistCostThresholdPedestrianDivisor : float;
  kTimeDistCostThresholdBicycleDivisor : float;
  kTimeDistCostThresholdAutoDivisor : float;
  (** [static_cast<size_t>] on a [sif::TravelMode] *)
  TravelMode_value : TravelMode → nat;
  (** an [odin::Costing] used as index of [costing_options] *)
  Costing_value : Costing → nat;
  (** the object behind a [sif::cost_ptr_t] *)
  DynamicCost : Type;
  CreateAutoCost : Costing → DirectionsOptions → DynamicCost;
  CreatePedestrianCost : Costing → DirectionsOptions → DynamicCost;
  CreateBicycleCost : Costing → DirectionsOptions → DynamicCost;
  (** [baldr::GraphReader] with its tile cache *)
  GraphReader : Type;
  OverCommitted : GraphReader → bool;
  Clear : GraphReader → GraphReader;
  (** [baldr::PathLocation] and [odin::Location] *)
  PathLocation : Type;
  Location : Type;
  PathLocation_toPBF : PathLocation → GraphReader → Location * GraphReader;
  (** [asgard::Projector], called on a range of places *)
  Projector : Type;
  projector_call :
    Projector → list string → GraphReader → string → option DynamicCost →
    outcome (gmap string PathLocation) * Projector * GraphReader;
  (** [thor::TimeDistanceMatrix] *)
  TimeDistanceMatrix : Type;
  SourceToTarget :
    TimeDistanceMatrix → list Location → list Location → GraphReader →
    list (option DynamicCost) → TravelMode → float →
    outcome (list TimeDistance) * TimeDistanceMatrix * GraphReader;
}.

Section Handler.
Context `{Valhalla}.

(** [sif::cost_ptr_t], a shared pointer; [None] is the null pointer. *)
Definition cost_ptr_t : Type := option DynamicCost.

(** *** Static helpers (lines 26-75) *)

(** [add_costing_options()] appends a default-constructed element. *)
Definition add_costing_options (o : DirectionsOptions) : DirectionsOptions :=
  {| costing_options := costing_options o ++ [ {| walking_speed := None |} ] |}.

Definition make_default_directions_options : DirectionsOptions :=
  Nat.iter 12 add_costing_options {| costing_options := [] |}.

Definition default_directions_options : DirectionsOptions :=
  make_default_directions_options.

Definition mode_map : gmap string TravelMode :=
  {[ "walking" := kPedestrian; "bike" := kBicycle; "car" := kDrive ]}.

(** [m.at(k)] on a map *)
Definition at_ {V} (m : gmap string V) (k : string) : outcome V :=
  match m !! k with
  | Some v => Returns v
  | None => Fails std_out_of_range
  end.

Definition mode_index (mode : string) : outcome nat :=
  match at_ mode_map mode with
  | Returns t => Returns (TravelMode_value t)
  | Fails e => Fails e
  end.

(** [co->set_walking_speed(v)] *)
Definition set_walking_speed (v : float) (co : CostingOptions) : CostingOptions :=
  {| walking_speed := Some v |}.

(** [options.mutable_costing_options(i)->set_walking_speed(v)]; the index
    has to name an element the repeated field holds. *)
Definition set_walking_speed_at (i : nat) (v : float) (options : DirectionsOptions)
  : outcome DirectionsOptions :=
  match costing_options options !! i with
  | Some co =>
      Returns {| costing_options := <[ i := set_walking_speed v co ]> (costing_options options) |}
  | None => Fails index_out_of_bounds
  end.

Definition make_costing_option (mode : string) (speed : float) : outcome DirectionsOptions :=
  let options := default_directions_options in
  let speed := float_mul_3_6 speed in
  match set_walking_speed_at (Costing_value pedestrian) speed options with
  | Returns options => set_walking_speed_at (Costing_value bicycle) speed options
  | Fails e => Fails e
  end.

Definition get_distance (mode : string) (duration : float) : float :=
  if decide (mode = "walking") then
    float_mul duration kTimeDistCostThresholdPedestrianDivisor
  else if decide (mode = "bike") then
    float_mul duration kTimeDistCostThresholdBicycleDivisor
  else
    float_mul duration kTimeDistCostThresholdAutoDivisor.

Definition to_costing (mode : string) : outcome Costing :=
  if decide (mode = "walking") then Returns pedestrian
  else if decide (mode = "bike") then Returns bicycle
  else if decide (mode = "car") then Returns auto_
  else Fails std_invalid_argument.

(** *** The classification loop (lines 143-160) *)

(** The loop state: the row being filled and the two counters. *)
Record tally := {
  row : list RoutingElement;
  nb_unknown : Z;
  nb_unreached : Z;
}.

(** One iteration, for the element [elt] of [res].  [elt.time] is a
    [uint32_t]: [set_duration] takes it as [int32], and line 151 compares
    it with the [float] constant, that is, after conversion to [float]. *)
Definition classify (max_duration : Z) (acc : tally) (elt : TimeDistance) : tally :=
  if float_of_uint32 (time elt) =? kMaxCost then
    {| row := row acc ++ [ {| duration := to_int32 (time elt); routing_status := unknown |} ];
       nb_unknown := nb_unknown acc + 1;
       nb_unreached := nb_unreached acc |}
  else if time elt >? to_uint32 max_duration then
    {| row := row acc ++ [ {| duration := to_int32 (time elt); routing_status := unreached |} ];
       nb_unknown := nb_unknown acc;
       nb_unreached := nb_unreached acc + 1 |}
  else
    {| row := row acc ++ [ {| duration := to_int32 (time elt); routing_status := reached |} ];
       nb_unknown := nb_unknown acc;
       nb_unreached := nb_unreached acc |}.

Definition classify_results (max_duration : Z) (res : list TimeDistance) : tally :=
  foldl (classify max_duration) {| row := []; nb_unknown := 0; nb_unreached := 0 |} res.


(** *** The handler object and the effects of a call

    [Handler] holds the members the constructor initialises ([factory] is
    fixed once its three creators are registered, see [factory_Create]).
    A call of [handle] runs in a [world]: the handler object, and the
    sequence of log lines written and collaborator calls made so far. *)
Record Handler := {
  graph : GraphReader;
  matrix : TimeDistanceMatrix;
  mode_costing : list cost_ptr_t;
  projector : Projector;
}.

Inductive event :=
  | Log_warn (msg : string)
  | Log_info (msg : string)
  | Call_Create (costing : Costing) (options : DirectionsOptions)
  | Call_projector (places : list string) (mode : string) (costing : cost_ptr_t)
  | Call_toPBF (pl : PathLocation)
  | Call_SourceToTarget (sources targets : list Location)
      (costings : list cost_ptr_t) (tm : TravelMode) (max_matrix_distance : float)
  | Call_OverCommitted
  | Call_Clear.

Record world := {
  handler : Handler;
  trace : list event;
}.

(** Computations that read and write the world and may fail; a failure
    keeps the world as it was when it happened. *)
Definition M (A : Type) : Type := world → outcome A * world.

#[global] Instance M_ret : MRet M := λ A a w, (Returns a, w).

#[global] Instance M_bind : MBind M := λ A B f m w,
  match m w with
  | (Returns a, w') => f a w'
  | (Fails e, w') => (Fails e, w')
  end.

(** A pure step that may throw. *)
Definition lift {A} (o : outcome A) : M A := λ w, (o, w).

Definition emit (ev : event) : M unit := λ w,
  (Returns tt, {| handler := handler w; trace := trace w ++ [ev] |}).

Definition LOG_WARN (msg : string) : M unit := emit (Log_warn msg).
Definition LOG_INFO (msg : string) : M unit := emit (Log_info msg).

(** [assert(b)] of <cassert>, as written: a false condition aborts the
    process.  (Compiled with NDEBUG the macro expands to nothing; the
    source does not define it.) *)
Definition assert (b : bool) : M unit :=
  if b then mret tt else lift (Fails assertion_failed).

Definition set_graph (g : GraphReader) (h : Handler) : Handler :=
  {| graph := g; matrix := matrix h; mode_costing := mode_costing h; projector := projector h |}.

Definition set_mode_costing (mc : list cost_ptr_t) (h : Handler) : Handler :=
  {| graph := graph h; matrix := matrix h; mode_costing := mc; projector := projector h |}.

(** The creators the constructor registers with the factory (lines 84-86). *)
Definition registered (costing : Costing) : Costing → DirectionsOptions → DynamicCost :=
  match costing with
  | auto_ => CreateAutoCost
  | pedestrian => CreatePedestrianCost
  | bicycle => CreateBicycleCost
  end.

(** [factory.Create(costing, options)]: a fresh costing from the creator
    registered for [costing]. *)
Definition factory_Create (costing : Costing) (options : DirectionsOptions) : M cost_ptr_t :=
  emit (Call_Create costing options);;
  mret (Some (registered costing costing options)).

(** [mode_costing[i] = v] *)
Definition store_mode_costing (i : nat) (v : cost_ptr_t) : M unit := λ w,
  if decide (i < length (mode_costing (handler w)))%nat then
    (Returns tt, {| handler := set_mode_costing (<[ i := v ]> (mode_costing (handler w))) (handler w);
                    trace := trace w |})
  else (Fails index_out_of_bounds, w).

(** [mode_costing[i]] *)
Definition load_mode_costing (i : nat) : M cost_ptr_t := λ w,
  match mode_costing (handler w) !! i with
  | Some v => (Returns v, w)
  | None => (Fails index_out_of_bounds, w)
  end.

(** The right operand of line 116. *)
Definition new_costing (mode : string) (speed : float) : M cost_ptr_t :=
  costing ← lift (to_costing mode);
  options ← lift (make_costing_option mode speed);
  factory_Create costing options.

(** Line 116, [mode_costing[mode_index(mode)] = factory.Create(...)], under
    either order of its two operands.  For a supported mode both orders
    give the same result; for another string the first operand evaluated
    is the one that throws. *)
Definition assign_mode_costing (ord : assignment_order) (mode : string) (speed : float) : M unit :=
  match ord with
  | rhs_first =>
      v ← new_costing mode speed;
      i ← lift (mode_index mode);
      store_mode_costing i v
  | lhs_first =>
      i ← lift (mode_index mode);
      v ← new_costing mode speed;
      store_mode_costing i v
  end.

(** [projector(begin(range), end(range), graph, mode, costing)] *)
Definition call_projector (places : list string) (mode : string) (costing : cost_ptr_t)
  : M (gmap string PathLocation) := λ w,
  let h := handler w in
  let '(r, p, g) := projector_call (projector h) places (graph h) mode costing in
  (r, {| handler := {| graph := g; matrix := matrix h;
                       mode_costing := mode_costing h; projector := p |};
         trace := trace w ++ [Call_projector places mode costing] |}).

(** [baldr::PathLocation::toPBF(pl, list.Add(), graph)] *)
Definition toPBF (pl : PathLocation) : M Location := λ w,
  let '(l, g) := PathLocation_toPBF pl (graph (handler w)) in
  (Returns l, {| handler := set_graph g (handler w); trace := trace w ++ [Call_toPBF pl] |}).

(** The loops of lines 126-131. *)
Fixpoint to_locations (path_locations : gmap string PathLocation) (places : list string)
  : M (list Location) :=
  match places with
  | [] => mret []
  | e :: places =>
      pl ← lift (at_ path_locations e);
      l ← toPBF pl;
      ls ← to_locations path_locations places;
      mret (l :: ls)
  end.

(** [matrix.SourceToTarget(sources, targets, graph, mode_costing, tm, d)] *)
Definition call_SourceToTarget (sources targets : list Location) (tm : TravelMode) (d : float)
  : M (list TimeDistance) := λ w,
  let h := handler w in
  let '(r, m, g) := SourceToTarget (matrix h) sources targets (graph h) (mode_costing h) tm d in
  (r, {| handler := {| graph := g; matrix := m;
                       mode_costing := mode_costing h; projector := projector h |};
         trace := trace w ++ [Call_SourceToTarget sources targets (mode_costing h) tm d] |}).

(** [if (graph.OverCommitted()) { graph.Clear(); }] *)
Definition trim_graph : M unit := λ w,
  if OverCommitted (graph (handler w)) then
    (Returns tt, {| handler := set_graph (Clear (graph (handler w))) (handler w);
                    trace := trace w ++ [Call_OverCommitted; Call_Clear] |})
  else
    (Returns tt, {| handler := handler w; trace := trace w ++ [Call_OverCommitted] |}).

(** *** [Handler::handle] (lines 93-170) *)

(** The vectors [sources] and [targets] of lines 103-114. *)
Definition sources (request : Request) : list string :=
  place <$> origins (sn_routing_matrix request).

Definition targets (request : Request) : list string :=
  place <$> destinations (sn_routing_matrix request).

(** Lines 99-122: costing of the requested mode, then projection of the
    joined range of places. *)
Definition project_locations (ord : assignment_order) (request : Request)
  : M (gmap string PathLocation) :=
  let rq := sn_routing_matrix request in
  LOG_INFO ("Processing matrix request " +:+
            to_string (Z.of_nat (length (origins rq))) +:+ "x" +:+
            to_string (Z.of_nat (length (destinations rq))));;
  assign_mode_costing ord (mode rq) (speed rq);;
  i ← lift (mode_index (mode rq));
  costing ← load_mode_costing i;
  LOG_INFO ("Projecting " +:+
            to_string (Z.of_nat (length (sources request) + length (targets request))) +:+
            " locations...");;
  path_locations ← call_projector (sources request ++ targets request) (mode rq) costing;
  LOG_INFO "Projecting locations done.";;
  mret path_locations.

(** Lines 124-140: the projected locations of the sources and of the
    targets, then the matrix. *)
Definition compute_matrix (request : Request) (path_locations : gmap string PathLocation)
  : M (list TimeDistance) :=
  let rq := sn_routing_matrix request in
  path_location_sources ← to_locations path_locations (sources request);
  path_location_targets ← to_locations path_locations (targets request);
  LOG_INFO "Computing matrix...";;
  tm ← lift (at_ mode_map (mode rq));
  res ← call_SourceToTarget path_location_sources path_location_targets tm
          (get_distance (mode rq) (float_of_int (max_duration rq)));
  LOG_INFO "Computing matrix done.";;
  mret res.

(** Lines 142-169: the single row of the response, the counters in the
    log, the graph trimmed. *)
Definition make_response (request : Request) (res : list TimeDistance) : M Response :=
  let rq := sn_routing_matrix request in
  assert (bool_decide (length res = length (sources request) * length (targets request))%nat);;
  let t := classify_results (max_duration rq) res in
  LOG_INFO ("Request done with " +:+ to_string (nb_unknown t) +:+ " unknown and " +:+
            to_string (nb_unreached t) +:+ " unreached");;
  trim_graph;;
  LOG_INFO "Everything is clear.";;
  mret {| response_sn_routing_matrix :=
            Some {| rows := [ {| routing_response := row t |} ] |} |}.

(** [solve] runs lines 99-140 and hands over [res]. *)
Definition solve (ord : assignment_order) (request : Request) : M (list TimeDistance) :=
  path_locations ← project_locations ord request;
  compute_matrix request path_locations.

Definition handle (ord : assignment_order) (request : Request) : M Response :=
  if bool_decide (requested_api request ≠ street_network_routing_matrix)
     && bool_decide (requested_api request ≠ direct_path) then
    LOG_WARN "wrong request: aborting";;
    mret {| response_sn_routing_matrix := None |}
  else
    res ← solve ord request;
    make_response request res.

(** [Handler::Handler] (lines 77-91): a value-initialised array of [n]
    null pointers, then the three default costings stored in turn. *)
Definition construct (g : GraphReader) (m : TimeDistanceMatrix) (p : Projector) (n : nat)
  : M unit :=
  let store mode costing :=
    v ← factory_Create costing default_directions_options;
    i ← lift (mode_index mode);
    store_mode_costing i v in
  (λ w, (Returns tt,
         {| handler := {| graph := g; matrix := m; mode_costing := replicate n None; projector := p |};
            trace := trace w |}));;
  store "car" auto_;;
  store "walking" pedestrian;;
  store "bike" bicycle.

(** *** The classification rule in the words of the specification

    Section 4.4: the sentinel test first, then the threshold, the test
    being equality with the sentinel.  The loop's own rule is [loop_status]
    below; the two agree on the times the single format holds exactly. *)
Definition spec_status (max_duration : Z) (d : Z) : RoutingStatus :=
  if decide (d = kMaxCost) then unknown
  else if decide (d > max_duration) then unreached
  else reached.

(** Section 4.2: the divisor of a mode, the automobile one for "car" and
    for every other string. *)
Definition spec_divisor (mode : string) : float :=
  if decide (mode = "walking") then kTimeDistCostThresholdPedestrianDivisor
  else if decide (mode = "bike") then kTimeDistCostThresholdBicycleDivisor
  else kTimeDistCostThresholdAutoDivisor.

(** The request kinds the handler serves. *)
Definition served (request : Request) : Prop :=
  requested_api request = street_network_routing_matrix ∨
  requested_api request = direct_path.

(** The three supported mode strings. *)
Definition supported (mode : string) : Prop :=
  mode = "walking" ∨ mode = "bike" ∨ mode = "car".

(** The events a computation adds to the trace of [w]. *)
Definition emitted (w w' : world) (evs : list event) : Prop :=
  trace w' = trace w ++ evs.

(** A relation between the world before and after that every run of [m]
    satisfies, whatever its outcome. *)
Definition respects (R : relation world) {A} (m : M A) : Prop :=
  ∀ w, R w (m w).2.

(** The costing slots stay as they are. *)
Definition same_costings (w w' : world) : Prop :=
  mode_costing (handler w') = mode_costing (handler w).

(** The trace grows by events that all satisfy [P]. *)
Definition emits (P : event → Prop) (w w' : world) : Prop :=
  ∃ evs, emitted w w' evs ∧ Forall P evs.

(** The status the loop gives a time [t] under the threshold [u]
    (lines 151-159). *)
Definition loop_status (u : Z) (t : Z) : RoutingStatus :=
  if decide (float_of_uint32 t = kMaxCost) then unknown
  else if decide (t > u) then unreached
  else reached.

(** The entry the loop adds for [elt] (lines 149-159). *)
Definition loop_element (u : Z) (elt : TimeDistance) : RoutingElement :=
  {| duration := to_int32 (time elt); routing_status := loop_status u (time elt) |}.

(** How many entries of a row have the status [s]. *)
Definition count_status (s : RoutingStatus) (r : list RoutingElement) : Z :=
  Z.of_nat (length (filter (λ k, routing_status k = s) r)).

(** What a request makes of the collaborators: the options and the costing
    handed to the factory, the places and the mode handed to the
    projector, the travel mode and the distance handed to the matrix. *)
Definition well_called (request : Request) (ev : event) : Prop :=
  let rq := sn_routing_matrix request in
  match ev with
  | Call_Create costing options =>
      to_costing (mode rq) = Returns costing ∧
      make_costing_option (mode rq) (speed rq) = Returns options
  | Call_projector places mode_ _ =>
      places = sources request ++ targets request ∧ mode_ = mode rq
  | Call_SourceToTarget _ _ _ tm d =>
      mode_map !! mode rq = Some tm ∧
      d = float_mul (float_of_int (max_duration rq)) (spec_divisor (mode rq))
  | _ => True
  end.

(** *** Further notions used to state properties *)

(** Lines 117-169, the steps of [handle] that follow line 116, in one
    sequence. *)
Definition after_costing (request : Request) : M Response :=
  let rq := sn_routing_matrix request in
  i ← lift (mode_index (mode rq));
  costing ← load_mode_costing i;
  LOG_INFO ("Projecting " +:+
            to_string (Z.of_nat (length (sources request) + length (targets request))) +:+
            " locations...");;
  path_locations ← call_projector (sources request ++ targets request) (mode rq) costing;
  LOG_INFO "Projecting locations done.";;
  res ← compute_matrix request path_locations;
  make_response request res.

(** Lines 99-116: the first log line and the assignment. *)
Definition before_costing (ord : assignment_order) (request : Request) : M unit :=
  let rq := sn_routing_matrix request in
  LOG_INFO ("Processing matrix request " +:+
            to_string (Z.of_nat (length (origins rq))) +:+ "x" +:+
            to_string (Z.of_nat (length (destinations rq))));;
  assign_mode_costing ord (mode rq) (speed rq).

(** The costing [to_costing] pairs with the travel mode of [mode_map]. *)
Definition costing_of (tm : TravelMode) : Costing :=
  match tm with
  | kDrive => auto_
  | kPedestrian => pedestrian
  | kBicycle => bicycle
  end.

(** The slots stay as they are and every call of the matrix gets them. *)
Definition sees_costings (w w' : world) : Prop :=
  mode_costing (handler w') = mode_costing (handler w) ∧
  ∃ evs, emitted w w' evs ∧
         Forall (λ ev, match ev with
                       | Call_SourceToTarget _ _ costings _ _ =>
                           costings = mode_costing (handler w)
                       | _ => True
                       end) evs.

(** A slot that holds a costing (a non-null pointer). *)
Definition holds_costing (h : Handler) (j : nat) : Prop :=
  ∃ c, mode_costing h !! j = Some (Some c).

(** The handler after a sequence of requests, whatever their outcomes. *)
Definition after_requests (ord : assignment_order) (requests : list Request) (w : world) : world :=
  foldl (λ w request, (handle ord request w).2) w requests.

(** Lines 119-169, with the costing read at line 117. *)
Definition after_load (request : Request) (costing : cost_ptr_t) : M Response :=
  let rq := sn_routing_matrix request in
  LOG_INFO ("Projecting " +:+
            to_string (Z.of_nat (length (sources request) + length (targets request))) +:+
            " locations...");;
  path_locations ← call_projector (sources request ++ targets request) (mode rq) costing;
  LOG_INFO "Projecting locations done.";;
  res ← compute_matrix request path_locations;
  make_response request res.

(** Events that are not a call of the projector with another costing. *)
Definition projects_with (v : cost_ptr_t) (ev : event) : Prop :=
  match ev with
  | Call_projector _ _ costing => costing = v
  | _ => True
  end.


(** The world after line 116 has stored in slot [i] the costing created
    for [costing] from [options]. *)
Definition costed (request : Request) (costing : Costing) (options : DirectionsOptions)
    (i : nat) (w : world) : world :=
  let rq := sn_routing_matrix request in
  {| handler :=
       set_mode_costing
         (<[ i := Some (registered costing costing options) ]> (mode_costing (handler w)))
         (handler w);
     trace := trace w ++
       [ Log_info ("Processing matrix request " +:+
                   to_string (Z.of_nat (length (origins rq))) +:+ "x" +:+
                   to_string (Z.of_nat (length (destinations rq))));
         Call_Create costing options ] |}.

End Handler.

(** ** A stub engine

    A small implementation of the two interfaces on which the handler can
    be run: exact rationals for [float], a graph reader that counts the
    tiles it holds, a projector that knows every place but the empty one,
    and a matrix that answers with a canned sequence. *)
Module Stub.

Definition scalars : Scalars := {|
  float := QArith_base.Q;
  float_of_int z := QArith_base.Qmake z 1;
  float_mul a b := Qreduction.Qred (QArith_base.Qmult a b);
  float_mul_3_6 x := Qreduction.Qred (QArith_base.Qmult x (QArith_base.Qmake 18 5));
|}.

(** A speed in metres per second, as a fraction. *)
Definition mps (n : Z) (d : positive) : @float scalars := QArith_base.Qmake n d.

Definition engine (canned : list (@TimeDistance)) : @Valhalla scalars := {|
  kMaxCost := 100000000;
  kMaxCost_float := eq_refl;
  kTimeDistCostThresholdPedestrianDivisor := @float_of_int scalars 7;
  kTimeDistCostThresholdBicycleDivisor := @float_of_int scalars 28;
  kTimeDistCostThresholdAutoDivisor := @float_of_int scalars 56;
  TravelMode_value t := match t with kDrive => 0 | kPedestrian => 1 | kBicycle => 2 end%nat;
  Costing_value c := match c with auto_ => 0 | bicycle => 2 | pedestrian => 7 end%nat;
  DynamicCost := Costing * @DirectionsOptions scalars;
  CreateAutoCost c o := (c, o);
  CreatePedestrianCost c o := (c, o);
  CreateBicycleCost c o := (c, o);
  GraphReader := nat;
  OverCommitted g := bool_decide (4 < g)%nat;
  Clear g := 0%nat;
  PathLocation := string;
  Location := string;
  PathLocation_toPBF pl g := (pl, g);
  Projector := unit;
  projector_call p places g mode costing :=
    (Returns (list_to_map ((λ e, (e, e)) <$> filter (λ e, e ≠ "") places)), p,
     (g + length places)%nat);
  TimeDistanceMatrix := unit;
  SourceToTarget m srcs tgts g costings tm d := (Returns canned, m, g);
|}.

(** A handler as the constructor leaves it, with four costing slots. *)
Definition handler0 (canned : list (@TimeDistance)) : @Handler scalars (engine canned) :=
  @Build_Handler scalars (engine canned) 0%nat tt
    [ Some (auto_, @default_directions_options scalars);
      Some (pedestrian, @default_directions_options scalars);
      Some (bicycle, @default_directions_options scalars);
      None ]
    tt.

Definition world0 (canned : list (@TimeDistance)) : @world scalars (engine canned) :=
  @Build_world scalars (engine canned) (handler0 canned) [].

Definition matrix_request (o d : list string) (m : string) (s : @float scalars) (md : Z)
  : @Request scalars :=
  @Build_Request scalars street_network_routing_matrix
    (@Build_StreetNetworkRoutingMatrixRequest scalars
       ((λ e, {| place := e |}) <$> o) ((λ e, {| place := e |}) <$> d) m s md).

Definition other_request (kind : string) : @Request scalars :=
  @Build_Request scalars (other_api kind)
    (@Build_StreetNetworkRoutingMatrixRequest scalars [] [] "" (@float_of_int scalars 0) 0).

(** The answers of the matrix in the scenario of the specification. *)
Definition scenario_results : list (@TimeDistance) :=
  (λ t, {| time := t; dist := 0 |}) <$> [100; 100000000; 700; 50; 599; 601].

(** Two origins, three destinations, walking at 1.4 m/s, at most 600. *)
Definition scenario_request : @Request scalars :=
  matrix_request ["a"; "b"] ["c"; "d"; "e"] "walking" (mps 7 5) 600.

Definition scenario_engine : @Valhalla scalars := engine scenario_results.

Definition scenario_world : @world scalars scenario_engine := world0 scenario_results.

(** A request for a mode the handler does not know. *)
Definition train_request : @Request scalars :=
  matrix_request ["a"] ["c"] "train" (mps 7 5) 600.

(** A request with a place the stub projector cannot project. *)
Definition lost_request : @Request scalars :=
  matrix_request ["a"; ""] ["c"] "bike" (mps 5 1) 600.

(** The scenario asked as a direct path. *)
Definition direct_path_request : @Request scalars :=
  @Build_Request scalars direct_path (sn_routing_matrix scenario_request).

(** A bicycle request at 5 m/s. *)
Definition bike_request : @Request scalars :=
  matrix_request ["a"; "b"] ["c"; "d"; "e"] "bike" (mps 5 1) 600.

(** A request without origin. *)
Definition empty_request : @Request scalars :=
  matrix_request [] ["c"] "car" (mps 5 1) 600.

(** The scenario answers with other distances. *)
Definition scenario_results' : list (@TimeDistance) :=
  (λ t, {| time := t; dist := 42 |}) <$> [100; 100000000; 700; 50; 599; 601].

(** The response to the scenario. *)
Definition scenario_response : Response :=
  {| response_sn_routing_matrix :=
       Some {| rows :=
                 [ {| routing_response :=
                        [ {| duration := 100; routing_status := reached |};
                          {| duration := 100000000; routing_status := unknown |};
                          {| duration := 700; routing_status := unreached |};
                          {| duration := 50; routing_status := reached |};
                          {| duration := 599; routing_status := reached |};
                          {| duration := 601; routing_status := unreached |} ] |} ] |} |}.



End Stub.

(** * Properties *)

Section Properties.
Context `{Valhalla}.

(** ** Running a sequence of steps *)

Lemma run_bind {A B} (m : M A) (f : A → M B) (w : world) :
  (m ≫= f) w =
  match m w with
  | (Returns a, w') => f a w'
  | (Fails e, w') => (Fails e, w')
  end.
Proof. reflexivity. Qed.

Lemma run_bind_Returns {A B} (m : M A) (f : A → M B) w a w1 :
  m w = (Returns a, w1) → (m ≫= f) w = f a w1.
Proof. intros Hm. by rewrite run_bind, Hm. Qed.

Lemma run_bind_Fails {A B} (m : M A) (f : A → M B) w e w1 :
  m w = (Fails e, w1) → (m ≫= f) w = (Fails e, w1).
Proof. intros Hm. by rewrite run_bind, Hm. Qed.

(** A sequence that returns has run each of its two parts. *)
Lemma bind_Returns_inv {A B} (m : M A) (f : A → M B) w b w' :
  (m ≫= f) w = (Returns b, w') →
  ∃ a w1, m w = (Returns a, w1) ∧ f a w1 = (Returns b, w').
Proof.
  rewrite run_bind. destruct (m w) as [[a|e] w1]; intros Hrun.
  - by exists a, w1.
  - discriminate.
Qed.

(** ** Relations every step of a computation respects *)

Section Respects.
Context (R : relation world) `{!Reflexive R, !Transitive R}.

Lemma respects_ret {A} (a : A) : respects R (mret a).
Proof. intros w. simpl. reflexivity. Qed.

Lemma respects_lift {A} (o : outcome A) : respects R (lift o).
Proof. intros w. simpl. reflexivity. Qed.

Lemma respects_bind {A B} (m : M A) (f : A → M B) :
  respects R m → (∀ a, respects R (f a)) → respects R (m ≫= f).
Proof.
  intros Hm Hf w. rewrite run_bind.
  specialize (Hm w). destruct (m w) as [[a|e] w1]; simpl in *.
  - etrans; [exact Hm | apply Hf].
  - exact Hm.
Qed.

Lemma respects_assert (b : bool) : respects R (assert b).
Proof. destruct b; [apply respects_ret | apply respects_lift]. Qed.

End Respects.

#[local] Instance same_costings_refl : Reflexive same_costings.
Proof. by intros w. Qed.

#[local] Instance same_costings_trans : Transitive same_costings.
Proof. unfold same_costings. intros w1 w2 w3 H12 H23. congruence. Qed.

#[local] Instance emits_refl P : Reflexive (emits P).
Proof. intros w. exists []. split; [unfold emitted; by rewrite app_nil_r | constructor]. Qed.

#[local] Instance emits_trans P : Transitive (emits P).
Proof.
  intros w1 w2 w3 (evs & H12 & HP) (evs' & H23 & HP').
  exists (evs ++ evs'). unfold emitted in *. split.
  - by rewrite H23, H12, app_assoc.
  - by apply Forall_app.
Qed.


(** ** The static helpers *)

Lemma mode_map_walking : mode_map !! "walking" = Some kPedestrian.
Proof. reflexivity. Qed.

Lemma mode_map_bike : mode_map !! "bike" = Some kBicycle.
Proof. reflexivity. Qed.

Lemma mode_map_car : mode_map !! "car" = Some kDrive.
Proof. reflexivity. Qed.

Lemma mode_map_unsupported (mode : string) :
  ¬ supported mode → mode_map !! mode = None.
Proof.
  unfold supported, mode_map. intros Hno.
  rewrite !lookup_insert_ne, lookup_singleton_ne; [done | ..];
    intros <-; apply Hno; auto.
Qed.

Lemma mode_map_supported (mode : string) :
  supported mode → ∃ tm, mode_map !! mode = Some tm.
Proof. intros [-> | [-> | ->]]; eexists; reflexivity. Qed.

Lemma to_costing_supported (mode : string) :
  supported mode → ∃ costing, to_costing mode = Returns costing.
Proof. intros [-> | [-> | ->]]; eexists; reflexivity. Qed.

Lemma to_costing_unsupported (mode : string) :
  ¬ supported mode → to_costing mode = Fails std_invalid_argument.
Proof.
  unfold supported, to_costing. intros Hno.
  repeat case_decide; try done; exfalso; apply Hno; auto.
Qed.

Lemma mode_index_unsupported (mode : string) :
  ¬ supported mode → mode_index mode = Fails std_out_of_range.
Proof.
  intros Hno. unfold mode_index, at_. by rewrite mode_map_unsupported.
Qed.

Lemma default_costing_options :
  costing_options default_directions_options = replicate 12 {| walking_speed := None |}.
Proof. reflexivity. Qed.

Lemma set_walking_speed_at_Returns (i : nat) (v : float) (options : DirectionsOptions) :
  (i < length (costing_options options))%nat →
  ∃ co, costing_options options !! i = Some co ∧
        set_walking_speed_at i v options =
        Returns {| costing_options := <[ i := set_walking_speed v co ]> (costing_options options) |}.
Proof.
  intros Hi. destruct (lookup_lt_is_Some_2 _ _ Hi) as [co Hco].
  exists co. split; [done |]. unfold set_walking_speed_at. by rewrite Hco.
Qed.

(** With both indices inside the twelve slots, the options are the default
    ones with the two walking speeds overwritten. *)
Lemma make_costing_option_Returns (mode : string) (s : float) :
  (Costing_value pedestrian < 12)%nat → (Costing_value bicycle < 12)%nat →
  make_costing_option mode s =
  Returns {| costing_options :=
               <[ Costing_value bicycle := {| walking_speed := Some (float_mul_3_6 s) |} ]>
                 (<[ Costing_value pedestrian := {| walking_speed := Some (float_mul_3_6 s) |} ]>
                    (replicate 12 {| walking_speed := None |})) |}.
Proof.
  intros Hp Hb. unfold make_costing_option.
  destruct (set_walking_speed_at_Returns (Costing_value pedestrian) (float_mul_3_6 s)
              default_directions_options) as (co & Hco & ->).
  { by rewrite default_costing_options, length_replicate. }
  match goal with
  | |- set_walking_speed_at _ _ ?o = _ =>
      destruct (set_walking_speed_at_Returns (Costing_value bicycle) (float_mul_3_6 s) o)
        as (co' & Hco' & ->)
  end.
  { cbn [costing_options]. by rewrite length_insert, default_costing_options, length_replicate. }
  by rewrite default_costing_options.
Qed.

(** ** The classification loop *)


(** A value that fits the significand is converted exactly. *)
Lemma float_of_uint32_exact (x : Z) : x < 2 ^ 24 → float_of_uint32 x = x.
Proof.
  intros Hx. unfold float_of_uint32. cbv zeta.
  assert (Hlog : Z.log2 x ≤ 23).
  { destruct (decide (0 < x)) as [Hpos | Hneg].
    - assert (Z.log2 x < 24) by (by apply Z.log2_lt_pow2). lia.
    - rewrite Z.log2_nonpos; lia. }
  destruct (Z.leb_spec (Z.log2 x - 23) 0); [done | lia].
Qed.



Lemma to_uint32_id (x : Z) : 0 ≤ x < 2 ^ 32 → to_uint32 x = x.
Proof. intros Hx. unfold to_uint32. by apply Z.mod_small. Qed.

Lemma count_status_snoc (s : RoutingStatus) (r : list RoutingElement) (k : RoutingElement) :
  count_status s (r ++ [k]) =
  count_status s r + (if decide (routing_status k = s) then 1 else 0).
Proof.
  unfold count_status. rewrite filter_app, length_app, Nat2Z.inj_add. f_equal.
  rewrite filter_cons, filter_nil. by case_decide.
Qed.

(** One iteration adds the entry of [elt] and counts it. *)
Lemma classify_step (max_duration : Z) (acc : tally) (elt : TimeDistance) :
  let k := loop_element (to_uint32 max_duration) elt in
  classify max_duration acc elt =
  {| row := row acc ++ [k];
     nb_unknown := nb_unknown acc + (if decide (routing_status k = unknown) then 1 else 0);
     nb_unreached := nb_unreached acc + (if decide (routing_status k = unreached) then 1 else 0) |}.
Proof.
  unfold classify, loop_element, loop_status. cbv zeta. cbn [routing_status].
  destruct (Z.eqb_spec (float_of_uint32 (time elt)) kMaxCost) as [Heq | Hne].
  - rewrite !(decide_True (P := float_of_uint32 (time elt) = kMaxCost)) by done.
    rewrite decide_True, decide_False by done. by rewrite Z.add_0_r.
  - rewrite !(decide_False (P := float_of_uint32 (time elt) = kMaxCost)) by done.
    destruct (Z.gtb_spec (time elt) (to_uint32 max_duration)) as [Hgt | Hle].
    + rewrite !(decide_True (P := time elt > to_uint32 max_duration)) by lia.
      rewrite decide_False, decide_True by done. by rewrite Z.add_0_r.
    + rewrite !(decide_False (P := time elt > to_uint32 max_duration)) by lia.
      rewrite !decide_False by done. by rewrite !Z.add_0_r.
Qed.

Lemma foldl_classify (max_duration : Z) (res : list TimeDistance) (acc : tally) :
  let t := foldl (classify max_duration) acc res in
  row t = row acc ++ (loop_element (to_uint32 max_duration) <$> res) ∧
  nb_unknown t - count_status unknown (row t) =
    nb_unknown acc - count_status unknown (row acc) ∧
  nb_unreached t - count_status unreached (row t) =
    nb_unreached acc - count_status unreached (row acc).
Proof.
  revert acc. induction res as [| elt res IH]; intros acc; simpl.
  - by rewrite app_nil_r.
  - destruct (IH (classify max_duration acc elt)) as (Hrow & Hunk & Hunr).
    pose proof (classify_step max_duration acc elt) as Hstep. cbv zeta in Hstep.
    remember (classify max_duration acc elt) as c eqn:Hc. clear Hc. subst c.
    cbn [row nb_unknown nb_unreached] in Hrow, Hunk, Hunr.
    rewrite count_status_snoc in Hunk, Hunr.
    split; [by rewrite Hrow, <- app_assoc | split; lia].
Qed.

(** The loop as a whole: the row holds one entry per result, in order, and
    the counters count the entries of each status. *)
Lemma classify_results_spec (max_duration : Z) (res : list TimeDistance) :
  let t := classify_results max_duration res in
  row t = loop_element (to_uint32 max_duration) <$> res ∧
  nb_unknown t = count_status unknown (row t) ∧
  nb_unreached t = count_status unreached (row t).
Proof.
  unfold classify_results.
  destruct (foldl_classify max_duration res
              {| row := []; nb_unknown := 0; nb_unreached := 0 |}) as (Hrow & Hunk & Hunr).
  cbn [row nb_unknown nb_unreached app] in Hrow, Hunk, Hunr.
  change (count_status unknown []) with 0 in Hunk.
  change (count_status unreached []) with 0 in Hunr.
  cbv zeta. split; [done | split; lia].
Qed.


(** ** Costing options *)

(** C2. For every mode string, the three supported ones included, and
    every speed [s], the options built for the request carry [s * 3.6] as
    walking speed of the pedestrian and of the bicycle slot, and the
    automobile slot is the one of the default options, whatever [s]. *)
Theorem C2_costing_option_speed (m : string) (s : float) :
  (Costing_value pedestrian < 12)%nat →
  (Costing_value bicycle < 12)%nat →
  (Costing_value auto_ < 12)%nat →
  Costing_value auto_ ≠ Costing_value pedestrian →
  Costing_value auto_ ≠ Costing_value bicycle →
  ∃ options,
    make_costing_option m s = Returns options ∧
    walking_speed <$> costing_options options !! Costing_value pedestrian
      = Some (Some (float_mul_3_6 s)) ∧
    walking_speed <$> costing_options options !! Costing_value bicycle
      = Some (Some (float_mul_3_6 s)) ∧
    costing_options options !! Costing_value auto_
      = costing_options default_directions_options !! Costing_value auto_ ∧
    costing_options options !! Costing_value auto_ = Some {| walking_speed := None |}.
Proof.
  intros Hp Hb Ha Hap Hab. eexists. split; [by apply make_costing_option_Returns |].
  cbn [costing_options]. rewrite default_costing_options.
  assert (Hlen : ∀ i x, length (<[ i := x ]> (replicate 12 {| walking_speed := None |})) = 12%nat).
  { intros i x. by rewrite length_insert, length_replicate. }
  repeat split.
  - destruct (decide (Costing_value bicycle = Costing_value pedestrian)) as [Heq | Hne].
    + rewrite Heq, list_lookup_insert_eq; [done | by rewrite Hlen].
    + rewrite list_lookup_insert_ne, list_lookup_insert_eq by (done || by rewrite length_replicate).
      done.
  - rewrite list_lookup_insert_eq; [done | by rewrite Hlen].
  - by rewrite !list_lookup_insert_ne.
  - rewrite !list_lookup_insert_ne by done. by apply lookup_replicate_2.
Qed.

(** ** The kind of the request *)

Lemma handle_served (ord : assignment_order) (request : Request) :
  served request →
  handle ord request = (solve ord request ≫= make_response request).
Proof.
  unfold served, handle. intros [-> | ->]; reflexivity.
Qed.

(** C6. A request that is neither a matrix nor a direct-path request gets
    the empty response: no matrix row, no failure, and the handler object
    (costing slots, graph, projector, matrix) is as before; the only event
    is the warning. *)
Theorem C6_wrong_kind_empty_response (ord : assignment_order) (request : Request) (w : world) :
  requested_api request ≠ street_network_routing_matrix →
  requested_api request ≠ direct_path →
  handle ord request w =
    (Returns {| response_sn_routing_matrix := None |},
     {| handler := handler w; trace := trace w ++ [Log_warn "wrong request: aborting"] |}).
Proof.
  intros Hm Hd. unfold handle.
  by rewrite !bool_decide_eq_true_2.
Qed.

(** ** Unsupported modes *)

(** C3. For a mode string outside walking, bike and car, [to_costing]
    fails with [std::invalid_argument]; the request ends in a failure, with
    no response, after the first log line only, and the handler object,
    its costing slots included, is what it was.  The failure that reaches
    the caller is the invalid argument when the right operand of line 116
    is evaluated first, and the [std::out_of_range] of [mode_map.at]
    when the left one is. *)
Theorem C3_unsupported_mode_aborts (ord : assignment_order) (request : Request) (w : world) :
  served request →
  ¬ supported (mode (sn_routing_matrix request)) →
  to_costing (mode (sn_routing_matrix request)) = Fails std_invalid_argument ∧
  ∃ e w',
    handle ord request w = (Fails e, w') ∧
    handler w' = handler w ∧
    mode_costing (handler w') = mode_costing (handler w) ∧
    (∃ msg, emitted w w' [Log_info msg]) ∧
    e = match ord with
        | rhs_first => std_invalid_argument
        | lhs_first => std_out_of_range
        end.
Proof.
  intros Hserved Hmode. split; [by apply to_costing_unsupported |].
  rewrite handle_served by done.
  unfold solve, project_locations, assign_mode_costing, new_costing.
  destruct ord; rewrite !run_bind.
  - rewrite to_costing_unsupported by done. cbn.
    eexists _, _. split; [reflexivity |]. cbn. repeat split. by eexists.
  - rewrite mode_index_unsupported by done. cbn.
    eexists _, _. split; [reflexivity |]. cbn. repeat split. by eexists.
Qed.

(** ** What each step does to the costing slots and to the trace *)

Lemma respects_bind_lift (R : relation world) `{!Reflexive R} {A B}
    (o : outcome A) (f : A → M B) :
  (∀ a, o = Returns a → respects R (f a)) → respects R (lift o ≫= f).
Proof.
  intros Hf w. rewrite run_bind. destruct o as [a | e]; simpl.
  - by apply Hf.
  - reflexivity.
Qed.

Section Costings.

Lemma same_costings_emit ev : respects same_costings (emit ev).
Proof. by intros w. Qed.

Lemma same_costings_load i : respects same_costings (load_mode_costing i).
Proof. intros w. unfold load_mode_costing. by destruct (_ !! _). Qed.

Lemma same_costings_call_projector places mode_ costing :
  respects same_costings (call_projector places mode_ costing).
Proof. intros w. unfold call_projector. by destruct (projector_call _ _ _ _ _) as [[r p] g]. Qed.

Lemma same_costings_toPBF pl : respects same_costings (toPBF pl).
Proof. intros w. unfold toPBF. by destruct (PathLocation_toPBF _ _). Qed.

Lemma same_costings_call_SourceToTarget srcs tgts tm d :
  respects same_costings (call_SourceToTarget srcs tgts tm d).
Proof.
  intros w. unfold call_SourceToTarget.
  by destruct (SourceToTarget _ _ _ _ _ _ _) as [[r m] g].
Qed.

Lemma same_costings_trim_graph : respects same_costings trim_graph.
Proof. intros w. unfold trim_graph. by destruct (OverCommitted _). Qed.

End Costings.

Create HintDb costings discriminated.

#[local] Hint Resolve same_costings_emit same_costings_load same_costings_call_projector
  same_costings_toPBF same_costings_call_SourceToTarget same_costings_trim_graph : costings.

Ltac step_respects db :=
  repeat first
    [ apply respects_ret; try typeclasses eauto
    | apply respects_lift; try typeclasses eauto
    | apply respects_assert; try typeclasses eauto
    | apply respects_bind_lift; try typeclasses eauto; intros ? ?
    | apply respects_bind; try typeclasses eauto; [ | intros ? ]
    | solve [ eauto with db ] ].

Lemma same_costings_to_locations path_locations places :
  respects same_costings (to_locations path_locations places).
Proof.
  induction places as [| e places IH]; simpl; step_respects costings.
Qed.



Section Calls.
Context (P : event → Prop).

Lemma emits_one (w w' : world) (ev : event) :
  trace w' = trace w ++ [ev] → P ev → emits P w w'.
Proof. intros Htr HP. exists [ev]. split; [done | by constructor]. Qed.

Lemma emits_emit ev : P ev → respects (emits P) (emit ev).
Proof. intros HP w. by apply emits_one with ev. Qed.

Lemma emits_store i v : respects (emits P) (store_mode_costing i v).
Proof.
  intros w. unfold store_mode_costing. case_decide; simpl; [| reflexivity].
  exists []. split; [unfold emitted; simpl; by rewrite app_nil_r | constructor].
Qed.

Lemma emits_load i : respects (emits P) (load_mode_costing i).
Proof. intros w. unfold load_mode_costing. destruct (_ !! _); reflexivity. Qed.

Lemma emits_call_projector places mode_ costing :
  P (Call_projector places mode_ costing) →
  respects (emits P) (call_projector places mode_ costing).
Proof.
  intros HP w. unfold call_projector.
  destruct (projector_call _ _ _ _ _) as [[r p] g]. by eapply emits_one.
Qed.

Lemma emits_toPBF pl : P (Call_toPBF pl) → respects (emits P) (toPBF pl).
Proof.
  intros HP w. unfold toPBF. destruct (PathLocation_toPBF _ _). by eapply emits_one.
Qed.

Lemma emits_call_SourceToTarget srcs tgts tm d :
  (∀ costings, P (Call_SourceToTarget srcs tgts costings tm d)) →
  respects (emits P) (call_SourceToTarget srcs tgts tm d).
Proof.
  intros HP w. unfold call_SourceToTarget.
  destruct (SourceToTarget _ _ _ _ _ _ _) as [[r m] g]. by eapply emits_one.
Qed.

Lemma emits_trim_graph :
  P Call_OverCommitted → P Call_Clear → respects (emits P) trim_graph.
Proof.
  intros HO HC w. unfold trim_graph. destruct (OverCommitted _).
  - exists [Call_OverCommitted; Call_Clear]. split; [done | by repeat constructor].
  - by eapply emits_one.
Qed.

End Calls.

Lemma get_distance_spec (mode_ : string) (duration_ : float) :
  get_distance mode_ duration_ = float_mul duration_ (spec_divisor mode_).
Proof. unfold get_distance, spec_divisor. by repeat case_decide. Qed.

Lemma at_Returns {V} (m : gmap string V) (k : string) (v : V) :
  at_ m k = Returns v → m !! k = Some v.
Proof. unfold at_. destruct (m !! k); naive_solver. Qed.

Lemma emits_to_locations (P : event → Prop) path_locations places :
  (∀ pl, P (Call_toPBF pl)) →
  respects (emits P) (to_locations path_locations places).
Proof.
  intros HP. induction places as [| e places IH]; simpl; step_respects costings.
  by apply emits_toPBF.
Qed.

(** Every call [handle] makes is the one the request asks for. *)
Lemma handle_well_called (ord : assignment_order) (request : Request) :
  respects (emits (well_called request)) (handle ord request).
Proof.
  unfold handle. case_match.
  { unfold LOG_WARN. step_respects costings. by apply emits_emit. }
  unfold solve, project_locations, compute_matrix, make_response, assign_mode_costing,
    new_costing, factory_Create, LOG_INFO.
  destruct ord; step_respects costings;
    try (apply emits_emit; by simpl);
    try apply emits_store; try apply emits_load;
    try (apply emits_to_locations; by intros);
    try (apply emits_trim_graph; by simpl).
  all: try (apply emits_call_projector; by simpl).
  all: apply emits_call_SourceToTarget; intros; simpl; split;
    [ by apply at_Returns | by apply get_distance_spec ].
Qed.

(** ** Runs that return *)

Lemma lift_Returns_inv {A} (o : outcome A) (w w' : world) (a : A) :
  lift o w = (Returns a, w') → o = Returns a ∧ w' = w.
Proof. unfold lift. intros [= -> ->]. done. Qed.

Lemma emit_Returns_inv (ev : event) (w w' : world) (u : unit) :
  emit ev w = (Returns u, w') →
  handler w' = handler w ∧ trace w' = trace w ++ [ev].
Proof. unfold emit. intros [= _ <-]. done. Qed.

Lemma load_Returns_inv (i : nat) (w w' : world) (v : cost_ptr_t) :
  load_mode_costing i w = (Returns v, w') →
  mode_costing (handler w) !! i = Some v ∧ w' = w.
Proof. unfold load_mode_costing. destruct (_ !! _); naive_solver. Qed.

Lemma call_projector_Returns_inv places mode_ costing (w w' : world) path_locations :
  call_projector places mode_ costing w = (Returns path_locations, w') →
  (projector_call (projector (handler w)) places (graph (handler w)) mode_ costing).1.1
    = Returns path_locations ∧
  trace w' = trace w ++ [Call_projector places mode_ costing].
Proof.
  unfold call_projector. destruct (projector_call _ _ _ _ _) as [[r p] g].
  intros [= -> <-]. done.
Qed.

Lemma call_SourceToTarget_Returns_inv srcs tgts tm d (w w' : world) res :
  call_SourceToTarget srcs tgts tm d w = (Returns res, w') →
  (SourceToTarget (matrix (handler w)) srcs tgts (graph (handler w))
     (mode_costing (handler w)) tm d).1.1 = Returns res ∧
  trace w' = trace w ++ [Call_SourceToTarget srcs tgts (mode_costing (handler w)) tm d].
Proof.
  unfold call_SourceToTarget. destruct (SourceToTarget _ _ _ _ _ _ _) as [[r m] g].
  intros [= -> <-]. done.
Qed.

(** The trace only grows. *)
Lemma extends_respects {A} (P : event → Prop) (m : M A) (w : world) :
  respects (emits P) m → ∃ evs, trace (m w).2 = trace w ++ evs.
Proof. intros Hm. destruct (Hm w) as (evs & Hevs & _). by exists evs. Qed.

Lemma to_locations_extends path_locations places (w : world) :
  ∃ evs, trace (to_locations path_locations places w).2 = trace w ++ evs.
Proof. by apply (extends_respects (λ _, True)), emits_to_locations. Qed.

Lemma assign_mode_costing_well_called ord request :
  respects (emits (well_called request))
    (assign_mode_costing ord (mode (sn_routing_matrix request)) (speed (sn_routing_matrix request))).
Proof.
  unfold assign_mode_costing, new_costing, factory_Create.
  destruct ord; step_respects costings;
    try (apply emits_emit; by simpl); apply emits_store.
Qed.

(** A projection that returns has called the projector on the joined
    range, and returns what the projector returned. *)
Lemma project_locations_Returns_inv ord request (w w1 : world) path_locations :
  project_locations ord request w = (Returns path_locations, w1) →
  ∃ wa costing evs,
    (projector_call (projector (handler wa)) (sources request ++ targets request)
       (graph (handler wa)) (mode (sn_routing_matrix request)) costing).1.1
      = Returns path_locations ∧
    emitted w w1 evs ∧
    Call_projector (sources request ++ targets request)
      (mode (sn_routing_matrix request)) costing ∈ evs.
Proof.
  unfold project_locations, LOG_INFO. intros Hrun.
  apply bind_Returns_inv in Hrun as (u0 & w0 & H0' & Hrun).
  apply emit_Returns_inv in H0' as [_ Ht0].
  apply bind_Returns_inv in Hrun as (u1 & wb & Hb & Hrun).
  destruct (extends_respects _ _ w0 (assign_mode_costing_well_called ord request))
    as [evs_a Htb].
  rewrite Hb in Htb. simpl in Htb.
  apply bind_Returns_inv in Hrun as (i & wi & Hi & Hrun).
  apply lift_Returns_inv in Hi as [Hi ->].
  apply bind_Returns_inv in Hrun as (costing & wl & Hl & Hrun).
  apply load_Returns_inv in Hl as [Hl ->].
  apply bind_Returns_inv in Hrun as (u2 & wc & Hc & Hrun).
  apply emit_Returns_inv in Hc as [Hhc Htc].
  apply bind_Returns_inv in Hrun as (pls & wd & Hd & Hrun).
  apply call_projector_Returns_inv in Hd as [Hp Htd].
  apply bind_Returns_inv in Hrun as (u3 & we & He & Hrun).
  apply emit_Returns_inv in He as [_ Hte].
  injection Hrun as -> ->.
  exists wc, costing. eexists. split; [done |]. split.
  - unfold emitted. rewrite Hte, Htd, Htc, Htb, Ht0. rewrite <- !app_assoc. reflexivity.
  - set_solver.
Qed.

(** The loops of lines 126-131 return when every place has a projected
    location, and raise [std::out_of_range] at the first that has none. *)
Lemma to_locations_total path_locations (places : list string) (w : world) :
  Forall (λ e, is_Some (path_locations !! e)) places →
  ∃ ls w', to_locations path_locations places w = (Returns ls, w') ∧
           length ls = length places.
Proof.
  intros Hall. revert w. induction Hall as [| e places [pl Hpl] _ IH]; intros w; simpl.
  - by exists [], w.
  - rewrite run_bind. unfold at_ at 1. rewrite Hpl. simpl.
    rewrite run_bind. unfold toPBF at 1.
    destruct (PathLocation_toPBF pl (graph (handler w))) as [l g].
    rewrite run_bind.
    match goal with
    | |- context [to_locations _ _ ?w0] => destruct (IH w0) as (ls & w' & -> & Hlen)
    end.
    eexists (l :: ls), w'. split; [reflexivity | simpl; by rewrite Hlen].
Qed.

Lemma to_locations_missing path_locations (places : list string) (w : world) :
  Exists (λ e, path_locations !! e = None) places →
  ∃ w', to_locations path_locations places w = (Fails std_out_of_range, w').
Proof.
  revert w. induction places as [| e places IH]; intros w Hex.
  { by apply Exists_nil in Hex. }
  simpl. rewrite run_bind. unfold at_ at 1.
  destruct (path_locations !! e) as [pl |] eqn:Hpl; simpl.
  - apply Exists_cons in Hex as [Hex | Hex]; [congruence |].
    rewrite run_bind. unfold toPBF at 1.
    destruct (PathLocation_toPBF pl (graph (handler w))) as [l g].
    rewrite run_bind.
    match goal with
    | |- context [to_locations _ _ ?w0] => destruct (IH w0 Hex) as (w' & ->)
    end.
    by eexists.
  - by eexists.
Qed.

(** A place without projected location stops the request before the
    matrix is computed. *)
Lemma compute_matrix_missing request path_locations (w : world) (e : string) :
  e ∈ sources request ++ targets request →
  path_locations !! e = None →
  ∃ w', compute_matrix request path_locations w = (Fails std_out_of_range, w').
Proof.
  intros Hin Hnone. unfold compute_matrix. rewrite run_bind.
  destruct (decide (Exists (λ e, path_locations !! e = None) (sources request)))
    as [Hex | Hall].
  - destruct (to_locations_missing _ _ w Hex) as (w' & ->). by eexists.
  - apply not_Exists_Forall in Hall; [| intros ?; apply _].
    edestruct (to_locations_total path_locations (sources request) w) as (ls & w' & -> & _).
    { eapply Forall_impl; [exact Hall |]. intros x Hx. simpl in Hx.
      destruct (path_locations !! x); [by eexists | done]. }
    rewrite run_bind.
    edestruct (to_locations_missing path_locations (targets request) w') as (w'' & ->).
    { apply Exists_exists. exists e. split; [| done].
      apply elem_of_app in Hin as [Hin | Hin]; [| done].
      rewrite Forall_forall in Hall. by destruct (Hall _ Hin). }
    by eexists.
Qed.

(** A matrix computation that returns has called the matrix with the
    distance of the request, and returns what the matrix returned. *)
Lemma compute_matrix_Returns_inv request path_locations (w w1 : world) res :
  compute_matrix request path_locations w = (Returns res, w1) →
  ∃ wa srcs tgts tm evs,
    (SourceToTarget (matrix (handler wa)) srcs tgts (graph (handler wa))
       (mode_costing (handler wa)) tm
       (get_distance (mode (sn_routing_matrix request))
          (float_of_int (max_duration (sn_routing_matrix request))))).1.1 = Returns res ∧
    emitted w w1 evs ∧
    Call_SourceToTarget srcs tgts (mode_costing (handler wa)) tm
      (get_distance (mode (sn_routing_matrix request))
         (float_of_int (max_duration (sn_routing_matrix request)))) ∈ evs.
Proof.
  unfold compute_matrix, LOG_INFO. intros Hrun.
  apply bind_Returns_inv in Hrun as (srcs & ws & Hs & Hrun).
  destruct (to_locations_extends path_locations (sources request) w) as [evs_s Hts].
  rewrite Hs in Hts. simpl in Hts.
  apply bind_Returns_inv in Hrun as (tgts & wt & Ht & Hrun).
  destruct (to_locations_extends path_locations (targets request) ws) as [evs_t Htt].
  rewrite Ht in Htt. simpl in Htt.
  apply bind_Returns_inv in Hrun as (u0 & wl & Hl & Hrun).
  apply emit_Returns_inv in Hl as [_ Htl].
  apply bind_Returns_inv in Hrun as (tm & wm & Hm & Hrun).
  apply lift_Returns_inv in Hm as [Hm ->].
  apply bind_Returns_inv in Hrun as (res' & wc & Hc & Hrun).
  apply call_SourceToTarget_Returns_inv in Hc as [Hc Htc].
  apply bind_Returns_inv in Hrun as (u1 & wd & Hd & Hrun).
  apply emit_Returns_inv in Hd as [_ Htd].
  injection Hrun as -> ->.
  exists wl, srcs, tgts, tm. eexists. split; [done |]. split.
  - unfold emitted. rewrite Htd, Htc, Htl, Htt, Hts. rewrite <- !app_assoc. reflexivity.
  - set_solver.
Qed.

(** With a sequence of the right length, lines 142-169 return the single
    row of the classified results and log the two counters. *)
Lemma make_response_Returns request res (w : world) :
  length res = (length (sources request) * length (targets request))%nat →
  let t := classify_results (max_duration (sn_routing_matrix request)) res in
  ∃ w' evs,
    make_response request res w =
      (Returns {| response_sn_routing_matrix :=
                    Some {| rows := [ {| routing_response := row t |} ] |} |}, w') ∧
    emitted w w'
      (Log_info ("Request done with " +:+ to_string (nb_unknown t) +:+ " unknown and " +:+
                 to_string (nb_unreached t) +:+ " unreached") :: evs) ∧
    mode_costing (handler w') = mode_costing (handler w).
Proof.
  intros Hlen t. unfold make_response. rewrite run_bind.
  rewrite bool_decide_eq_true_2 by done. simpl.
  unfold trim_graph, LOG_INFO, emit. rewrite !run_bind. cbn [handler graph trace].
  match goal with
  | |- context [OverCommitted ?g] => destruct (OverCommitted g)
  end;
    eexists _, _; (split; [reflexivity |]);
    unfold emitted; cbn [handler graph trace]; rewrite <- !app_assoc; split; reflexivity.
Qed.

(** With any other length, the assertion fails and nothing else happens. *)
Lemma make_response_Fails request res (w : world) :
  length res ≠ (length (sources request) * length (targets request))%nat →
  make_response request res w = (Fails assertion_failed, w).
Proof.
  intros Hlen. unfold make_response. rewrite run_bind.
  by rewrite bool_decide_eq_false_2.
Qed.

Lemma handle_solved ord request (w w1 : world) res :
  served request →
  solve ord request w = (Returns res, w1) →
  handle ord request w = make_response request res w1.
Proof.
  intros Hserved Hsolve. rewrite handle_served by done.
  by apply run_bind_Returns.
Qed.

Lemma handle_Returns_inv ord request (w w' : world) resp :
  served request →
  handle ord request w = (Returns resp, w') →
  ∃ res w1, solve ord request w = (Returns res, w1) ∧
            make_response request res w1 = (Returns resp, w').
Proof.
  intros Hserved. rewrite handle_served by done. apply bind_Returns_inv.
Qed.

Lemma make_response_extends request res (w : world) :
  ∃ evs, trace (make_response request res w).2 = trace w ++ evs.
Proof.
  destruct (decide (length res = (length (sources request) * length (targets request))%nat))
    as [Hlen | Hlen].
  - destruct (make_response_Returns request res w Hlen) as (w' & evs & -> & Hevs & _).
    by eexists.
  - rewrite make_response_Fails by done. exists []. by rewrite app_nil_r.
Qed.

(** ** The distance threshold *)

(** C8. The distance handed to the matrix is [max_duration] times the
    divisor of the mode: every call of the matrix a request causes carries
    it, and a served request that gets a response has caused such a call.
    The divisor is the pedestrian one for walking, the bicycle one for
    bike, and the automobile one for car and for any other string. *)
Theorem C8_unreachable_distance_threshold (ord : assignment_order) (request : Request)
    (w w' : world) (out : outcome Response) :
  handle ord request w = (out, w') →
  ∃ evs,
    emitted w w' evs ∧
    (∀ srcs tgts costings tm d,
       Call_SourceToTarget srcs tgts costings tm d ∈ evs →
       d = get_distance (mode (sn_routing_matrix request))
             (float_of_int (max_duration (sn_routing_matrix request)))) ∧
    (served request → (∃ resp, out = Returns resp) →
     ∃ srcs tgts costings tm,
       Call_SourceToTarget srcs tgts costings tm
         (get_distance (mode (sn_routing_matrix request))
            (float_of_int (max_duration (sn_routing_matrix request)))) ∈ evs) ∧
    (∀ d, get_distance "walking" d = float_mul d kTimeDistCostThresholdPedestrianDivisor) ∧
    (∀ d, get_distance "bike" d = float_mul d kTimeDistCostThresholdBicycleDivisor) ∧
    (∀ d, get_distance "car" d = float_mul d kTimeDistCostThresholdAutoDivisor) ∧
    (∀ m d, m ≠ "walking" → m ≠ "bike" →
            get_distance m d = float_mul d kTimeDistCostThresholdAutoDivisor).
Proof.
  intros Hrun.
  destruct (handle_well_called ord request w) as (evs & Hevs & Hcalls).
  rewrite Hrun in Hevs. simpl in Hevs.
  exists evs. split; [done |]. split; [| split; [| repeat split]].
  - intros srcs tgts costings tm d Hin.
    rewrite Forall_forall in Hcalls. apply Hcalls in Hin as [_ ->].
    by rewrite get_distance_spec.
  - intros Hserved [resp ->].
    apply handle_Returns_inv in Hrun as (res & w1 & Hsolve & Hresp); [| done].
    apply bind_Returns_inv in Hsolve as (pls & w0 & Hproj & Hcomp).
    apply project_locations_Returns_inv in Hproj as (_ & _ & evs_p & _ & Hp & _).
    apply compute_matrix_Returns_inv in Hcomp
      as (wa & srcs & tgts & tm & evs_c & _ & Hc & Hin).
    destruct (make_response_extends request res w1) as [evs_r Hr].
    rewrite Hresp in Hr. simpl in Hr.
    unfold emitted in *. rewrite Hr, Hc, Hp, <- !app_assoc in Hevs.
    apply app_inv_head in Hevs as <-.
    exists srcs, tgts, (mode_costing (handler wa)), tm. set_solver.
  - intros m d Hw Hb. unfold get_distance. by rewrite !decide_False.
Qed.

(** ** The costing slot of the requested mode *)

Lemma respects_after (R : relation world) `{!Reflexive R} {A B} (m : M A) (f : A → M B) :
  (∀ a, respects R (f a)) → ∀ w, R (m w).2 ((m ≫= f) w).2.
Proof.
  intros Hf w. rewrite run_bind. destruct (m w) as [[a | e] w1]; simpl.
  - apply Hf.
  - reflexivity.
Qed.

(** Line 116 on a supported mode whose slot the array has. *)
Lemma assign_mode_costing_run ord mode_ s (w : world) costing options i :
  to_costing mode_ = Returns costing →
  make_costing_option mode_ s = Returns options →
  mode_index mode_ = Returns i →
  (i < length (mode_costing (handler w)))%nat →
  assign_mode_costing ord mode_ s w =
    (Returns tt,
     {| handler :=
          set_mode_costing
            (<[ i := Some (registered costing costing options) ]> (mode_costing (handler w)))
            (handler w);
        trace := trace w ++ [Call_Create costing options] |}).
Proof.
  intros Hc Ho Hi Hlt. unfold assign_mode_costing, new_costing, factory_Create.
  destruct ord; rewrite Hc, Ho, Hi;
    cbv [mbind M_bind mret M_ret lift emit store_mode_costing];
    cbn [handler trace mode_costing]; by rewrite decide_True.
Qed.



(** ** Projection *)

(** C7. The projector is called on the origins followed by the
    destinations, so every place of the request is handed to it, and no
    call of the projector gets another range.  When the mapping it returns
    has no entry for one of these places, the request ends in the
    [std::out_of_range] of [path_locations.at]: no response, no pair
    skipped. *)
Theorem C7_projection_is_total_or_fatal (ord : assignment_order) (request : Request)
    (w w1 : world) (path_locations : gmap string PathLocation) :
  served request →
  project_locations ord request w = (Returns path_locations, w1) →
  (∃ wa costing evs,
     (projector_call (projector (handler wa)) (sources request ++ targets request)
        (graph (handler wa)) (mode (sn_routing_matrix request)) costing).1.1
       = Returns path_locations ∧
     emitted w w1 evs ∧
     Call_projector (sources request ++ targets request)
       (mode (sn_routing_matrix request)) costing ∈ evs) ∧
  (∀ p, p ∈ origins (sn_routing_matrix request) ∨ p ∈ destinations (sn_routing_matrix request) →
        place p ∈ sources request ++ targets request) ∧
  (∀ evs places mode_ costing,
     emitted w (handle ord request w).2 evs →
     Call_projector places mode_ costing ∈ evs →
     places = sources request ++ targets request) ∧
  (∀ e, e ∈ sources request ++ targets request →
        path_locations !! e = None →
        ∃ w', handle ord request w = (Fails std_out_of_range, w')).
Proof.
  intros Hserved Hproj. split; [| split; [| split]].
  - by apply project_locations_Returns_inv in Hproj.
  - intros p [Hp | Hp]; apply elem_of_app; [left | right];
      unfold sources, targets; by apply list_elem_of_fmap_2.
  - intros evs places mode_ costing Hevs Hin.
    destruct (handle_well_called ord request w) as (evs' & Hevs' & Hcalls).
    unfold emitted in *. rewrite Hevs in Hevs'. apply app_inv_head in Hevs' as <-.
    rewrite Forall_forall in Hcalls. by apply Hcalls in Hin as [-> _].
  - intros e Hin Hnone. rewrite handle_served by done. unfold solve.
    destruct (compute_matrix_missing request path_locations w1 e Hin Hnone) as [w' Hw'].
    exists w'. rewrite run_bind.
    by rewrite (run_bind_Returns _ _ _ _ _ Hproj), Hw'.
Qed.

(** ** The length of the result sequence *)

(** C5. For a served request, a response is only ever built from a result
    sequence of [origins * destinations] entries, and carries as many; a
    sequence of any other length stops the request at the assertion, with
    no response and nothing classified. *)
Theorem C5_result_count_asserted (ord : assignment_order) (request : Request) (w : world) :
  served request →
  (∀ resp w',
     handle ord request w = (Returns resp, w') →
     ∃ res w1 r,
       solve ord request w = (Returns res, w1) ∧
       length res = (length (origins (sn_routing_matrix request)) *
                     length (destinations (sn_routing_matrix request)))%nat ∧
       response_sn_routing_matrix resp = Some {| rows := [r] |} ∧
       length (routing_response r) = length res) ∧
  (∀ res w1,
     solve ord request w = (Returns res, w1) →
     length res ≠ (length (origins (sn_routing_matrix request)) *
                   length (destinations (sn_routing_matrix request)))%nat →
     handle ord request w = (Fails assertion_failed, w1)).
Proof.
  intros Hserved. split.
  - intros resp w' Hrun.
    apply handle_Returns_inv in Hrun as (res & w1 & Hsolve & Hresp); [| done].
    exists res, w1.
    destruct (decide (length res =
                      (length (sources request) * length (targets request))%nat))
      as [Hlen | Hlen].
    + destruct (make_response_Returns request res w1 Hlen) as (w'' & evs & Hret & _).
      rewrite Hret in Hresp. injection Hresp as <- _.
      eexists. split; [done |]. split.
      { unfold sources, targets in Hlen. by rewrite !length_fmap in Hlen. }
      split; [reflexivity |]. cbn [routing_response].
      destruct (classify_results_spec (max_duration (sn_routing_matrix request)) res)
        as (-> & _).
      by rewrite length_fmap.
    + by rewrite make_response_Fails in Hresp.
  - intros res w1 Hsolve Hlen.
    rewrite (handle_solved _ _ _ _ _ Hserved Hsolve).
    apply make_response_Fails. unfold sources, targets. by rewrite !length_fmap.
Qed.

(** ** The response row *)

Lemma count_status_fmap (s : RoutingStatus) (r : list RoutingElement) :
  count_status s r = Z.of_nat (length (filter (λ x, x = s) (routing_status <$> r))).
Proof.
  unfold count_status. f_equal.
  induction r as [| k r IH]; [done |].
  rewrite fmap_cons, !filter_cons. simpl. case_decide; simpl; by rewrite IH.
Qed.

Lemma loop_element_status (max_duration : Z) (res : list TimeDistance) :
  routing_status <$> (loop_element max_duration <$> res)
  = loop_status max_duration <$> (time <$> res).
Proof. rewrite <- !list_fmap_compose. by apply list_fmap_ext. Qed.



(** ** The scenario of the specification *)

(** C4. Two origins, three destinations, mode walking, any speed,
    [max_duration] 600, and the matrix answering with the durations
    100, sentinel, 700, 50, 599, 601: the response row has the statuses
    reached, unknown, unreached, reached, reached, unreached in this order,
    the counters end at one unknown and two unreached, and that is what
    the log line says. *)
Theorem C4_scenario_two_by_three (ord : assignment_order) (request : Request)
    (w w1 : world) (res : list TimeDistance) :
  requested_api request = street_network_routing_matrix →
  length (origins (sn_routing_matrix request)) = 2%nat →
  length (destinations (sn_routing_matrix request)) = 3%nat →
  mode (sn_routing_matrix request) = "walking" →
  max_duration (sn_routing_matrix request) = 600 →
  solve ord request w = (Returns res, w1) →
  time <$> res = [100; kMaxCost; 700; 50; 599; 601] →
  kMaxCost ∉ [100; 700; 50; 599; 601] →
  ∃ r w',
    handle ord request w =
      (Returns {| response_sn_routing_matrix := Some {| rows := [r] |} |}, w') ∧
    routing_status <$> routing_response r
      = [reached; unknown; unreached; reached; reached; unreached] ∧
    nb_unknown (classify_results 600 res) = 1 ∧
    nb_unreached (classify_results 600 res) = 2 ∧
    Log_info "Request done with 1 unknown and 2 unreached" ∈ trace w'.
Proof.
  intros Hapi Ho Hd Hmode Hmd Hsolve Htimes Hsentinel.
  assert (Hserved : served request) by by left.
  assert (Hlen : length res = 6%nat).
  { by rewrite <- (length_fmap time), Htimes. }
  rewrite (handle_solved _ _ _ _ _ Hserved Hsolve).
  destruct (make_response_Returns request res w1) as (w' & evs & Hret & Hevs & _).
  { unfold sources, targets. by rewrite !length_fmap, Ho, Hd. }
  rewrite Hmd in Hret, Hevs.
  destruct (classify_results_spec 600 res) as (Hrow & Hunk & Hunr).
  assert (Hstatus : routing_status <$> row (classify_results 600 res)
                    = [reached; unknown; unreached; reached; reached; unreached]).
  { rewrite Hrow, loop_element_status, Htimes. change (to_uint32 600) with 600.
    unfold loop_status. cbn [fmap list_fmap].
    rewrite kMaxCost_float, !float_of_uint32_exact by lia.
    rewrite (decide_True (P := kMaxCost = kMaxCost)) by done.
    repeat match goal with
           | |- context [decide (?x = kMaxCost)] =>
               rewrite (decide_False (P := x = kMaxCost))
                 by (intros Heq; apply Hsentinel; rewrite <- Heq; set_solver)
           end.
    reflexivity. }
  assert (Hunk' : nb_unknown (classify_results 600 res) = 1).
  { by rewrite Hunk, count_status_fmap, Hstatus. }
  assert (Hunr' : nb_unreached (classify_results 600 res) = 2).
  { by rewrite Hunr, count_status_fmap, Hstatus. }
  eexists _, w'. split; [exact Hret |]. cbn [routing_response].
  split; [done |]. split; [done |]. split; [done |].
  unfold emitted in Hevs. rewrite Hevs, Hunk', Hunr'.
  apply elem_of_app. right. by left.
Qed.

(** * Further properties of the handler *)

(** ** The steps of [handle] around line 116 *)

Lemma run_bind_assoc {A B C} (m : M A) (f : A → M B) (g : B → M C) (w : world) :
  ((m ≫= f) ≫= g) w = (m ≫= (λ a, f a ≫= g)) w.
Proof. rewrite !run_bind. by destruct (m w) as [[a | e] w1]. Qed.

Lemma run_bind_ext {A B} (m : M A) (f g : A → M B) (w : world) :
  (∀ a w1, f a w1 = g a w1) → (m ≫= f) w = (m ≫= g) w.
Proof. intros Hfg. rewrite !run_bind. by destruct (m w) as [[a | e] w1]. Qed.

Lemma run_bind_mret {A} (m : M A) (w : world) : (m ≫= mret) w = m w.
Proof. rewrite run_bind. by destruct (m w) as [[a | e] w1]. Qed.

(** A served request runs lines 99-116, then lines 117-169. *)
Lemma handle_split (ord : assignment_order) (request : Request) (w : world) :
  served request →
  handle ord request w = (before_costing ord request ≫= λ _, after_costing request) w.
Proof.
  intros Hserved. rewrite handle_served by done.
  unfold solve, project_locations, before_costing, after_costing.
  rewrite !run_bind_assoc. apply run_bind_ext. intros _ w0.
  rewrite !run_bind_assoc. apply run_bind_ext. intros _ w1.
  repeat (rewrite !run_bind_assoc; apply run_bind_ext; intros ? ?).
  reflexivity.
Qed.

(** ** The two mode tables and the costing options *)

(** X1. [mode_map] and [to_costing] know the same strings and pair them
    alike: on a key of the map, [to_costing] gives the costing of the
    travel mode and [mode_index] its numeric value; on any other string
    the first throws [std::invalid_argument] and the second
    [std::out_of_range]. *)
Theorem mode_tables_agree (m : string) :
  match mode_map !! m with
  | Some tm =>
      to_costing m = Returns (costing_of tm) ∧
      mode_index m = Returns (TravelMode_value tm)
  | None =>
      to_costing m = Fails std_invalid_argument ∧
      mode_index m = Fails std_out_of_range
  end.
Proof.
  destruct (decide (supported m)) as [[-> | [-> | ->]] | Hno].
  - by rewrite mode_map_walking.
  - by rewrite mode_map_bike.
  - by rewrite mode_map_car.
  - rewrite mode_map_unsupported by done.
    split; [by apply to_costing_unsupported | by apply mode_index_unsupported].
Qed.

(** X2. The options of a request always have the twelve slots of the
    default options; every slot but the pedestrian and the bicycle one is
    the default slot, and the mode argument has no influence. *)
Theorem make_costing_option_frame (m : string) (s : float) :
  (Costing_value pedestrian < 12)%nat →
  (Costing_value bicycle < 12)%nat →
  ∃ options,
    make_costing_option m s = Returns options ∧
    length (costing_options options) = 12%nat ∧
    (∀ j, j ≠ Costing_value pedestrian → j ≠ Costing_value bicycle →
          costing_options options !! j = costing_options default_directions_options !! j) ∧
    (∀ m', make_costing_option m' s = Returns options).
Proof.
  intros Hp Hb. eexists. split; [by apply make_costing_option_Returns |].
  cbn [costing_options]. split; [| split].
  - by rewrite !length_insert, length_replicate.
  - intros j Hjp Hjb. by rewrite !list_lookup_insert_ne, default_costing_options.
  - intros m'. by apply make_costing_option_Returns.
Qed.

(** ** More on the classification loop *)

Lemma count_status_nil (s : RoutingStatus) : count_status s [] = 0.
Proof. reflexivity. Qed.

Lemma count_status_cons (s : RoutingStatus) (k : RoutingElement) (r : list RoutingElement) :
  count_status s (k :: r) =
  (if decide (routing_status k = s) then 1 else 0) + count_status s r.
Proof.
  unfold count_status. rewrite filter_cons. case_decide; simpl length; lia.
Qed.

Lemma count_status_app (s : RoutingStatus) (r1 r2 : list RoutingElement) :
  count_status s (r1 ++ r2) = count_status s r1 + count_status s r2.
Proof. unfold count_status. rewrite filter_app, length_app. lia. Qed.

Lemma count_status_partition (r : list RoutingElement) :
  count_status reached r + count_status unreached r + count_status unknown r
  = Z.of_nat (length r).
Proof.
  induction r as [| k r IH]; [done |].
  rewrite !count_status_cons. cbn [length]. destruct (routing_status k);
    repeat case_decide; try done; lia.
Qed.

Lemma count_status_nonneg (s : RoutingStatus) (r : list RoutingElement) :
  0 ≤ count_status s r.
Proof. unfold count_status. lia. Qed.

(** X3. The two counters of the loop are the numbers of entries with
    status [unknown] and [unreached]; with the [reached] entries they add
    up to the number of results, so neither is negative and their sum is at
    most the length of the sequence. *)
Theorem classify_results_counters (max_duration : Z) (res : list TimeDistance) :
  length (row (classify_results max_duration res)) = length res ∧
  nb_unknown (classify_results max_duration res)
    = count_status unknown (row (classify_results max_duration res)) ∧
  nb_unreached (classify_results max_duration res)
    = count_status unreached (row (classify_results max_duration res)) ∧
  count_status reached (row (classify_results max_duration res))
    + nb_unreached (classify_results max_duration res)
    + nb_unknown (classify_results max_duration res) = Z.of_nat (length res) ∧
  0 ≤ nb_unknown (classify_results max_duration res) ∧
  0 ≤ nb_unreached (classify_results max_duration res) ∧
  nb_unknown (classify_results max_duration res)
    + nb_unreached (classify_results max_duration res) ≤ Z.of_nat (length res).
Proof.
  destruct (classify_results_spec max_duration res) as (Hrow & Hunk & Hunr).
  assert (Hlen : length (row (classify_results max_duration res)) = length res).
  { by rewrite Hrow, length_fmap. }
  pose proof (count_status_partition (row (classify_results max_duration res))) as Hsum.
  pose proof (count_status_nonneg reached (row (classify_results max_duration res))).
  pose proof (count_status_nonneg unknown (row (classify_results max_duration res))).
  pose proof (count_status_nonneg unreached (row (classify_results max_duration res))).
  rewrite Hlen in Hsum. rewrite Hunk, Hunr. repeat split; try done; lia.
Qed.

(** X4. Classifying a concatenation is classifying its two parts: the
    rows are concatenated and the counters added. *)
Theorem classify_results_app (max_duration : Z) (res1 res2 : list TimeDistance) :
  row (classify_results max_duration (res1 ++ res2))
    = row (classify_results max_duration res1) ++ row (classify_results max_duration res2) ∧
  nb_unknown (classify_results max_duration (res1 ++ res2))
    = nb_unknown (classify_results max_duration res1)
      + nb_unknown (classify_results max_duration res2) ∧
  nb_unreached (classify_results max_duration (res1 ++ res2))
    = nb_unreached (classify_results max_duration res1)
      + nb_unreached (classify_results max_duration res2).
Proof.
  destruct (classify_results_spec max_duration (res1 ++ res2)) as (Hrow & Hunk & Hunr).
  destruct (classify_results_spec max_duration res1) as (Hrow1 & Hunk1 & Hunr1).
  destruct (classify_results_spec max_duration res2) as (Hrow2 & Hunk2 & Hunr2).
  assert (Happ : row (classify_results max_duration (res1 ++ res2))
                 = row (classify_results max_duration res1)
                   ++ row (classify_results max_duration res2)).
  { by rewrite Hrow, Hrow1, Hrow2, fmap_app. }
  split; [done |].
  rewrite Hunk, Hunr, Hunk1, Hunr1, Hunk2, Hunr2, Happ, !count_status_app. done.
Qed.

Lemma classify_results_ext (md1 md2 : Z) (res1 res2 : list TimeDistance) :
  row (classify_results md1 res1) = row (classify_results md2 res2) →
  classify_results md1 res1 = classify_results md2 res2.
Proof.
  intros Hrow.
  destruct (classify_results_spec md1 res1) as (_ & Hunk1 & Hunr1).
  destruct (classify_results_spec md2 res2) as (_ & Hunk2 & Hunr2).
  destruct (classify_results md1 res1) as [r1 u1 n1], (classify_results md2 res2) as [r2 u2 n2].
  simpl in *. by subst.
Qed.

(** X5. The loop reads the times of the results and nothing else, and
    reads [max_duration] through [uint32_t] only: two sequences with the same
    times, under two thresholds that agree modulo [2^32], give the same
    row and the same counters. *)
Theorem classify_results_reads_times (md1 md2 : Z) (res1 res2 : list TimeDistance) :
  time <$> res1 = time <$> res2 →
  md1 `mod` 2 ^ 32 = md2 `mod` 2 ^ 32 →
  classify_results md1 res1 = classify_results md2 res2.
Proof.
  intros Htimes Hmd. apply classify_results_ext.
  destruct (classify_results_spec md1 res1) as (-> & _).
  destruct (classify_results_spec md2 res2) as (-> & _).
  unfold to_uint32. rewrite Hmd.
  assert (Hsplit : ∀ u (res : list TimeDistance),
            loop_element u <$> res
            = (λ t, {| duration := to_int32 t; routing_status := loop_status u t |}) <$> (time <$> res)).
  { intros u res. rewrite <- list_fmap_compose. by apply list_fmap_ext. }
  by rewrite !Hsplit, Htimes.
Qed.

Lemma loop_status_monotone (u u' d : Z) :
  u ≤ u' →
  (loop_status u d = unknown ↔ loop_status u' d = unknown) ∧
  (loop_status u d = reached → loop_status u' d = reached) ∧
  (loop_status u' d = unreached → loop_status u d = unreached).
Proof.
  intros Hu. unfold loop_status. repeat case_decide; try done; try lia; naive_solver.
Qed.

Lemma count_status_monotone (u u' : Z) (res : list TimeDistance) :
  u ≤ u' →
  count_status unknown (loop_element u' <$> res) = count_status unknown (loop_element u <$> res) ∧
  count_status unreached (loop_element u' <$> res)
    ≤ count_status unreached (loop_element u <$> res).
Proof.
  intros Hu. induction res as [| elt res [IHk IHr]]; [done |].
  rewrite !fmap_cons, !count_status_cons. cbn [loop_element routing_status].
  destruct (loop_status_monotone u u' (time elt) Hu) as (Hk & _ & Hr).
  split.
  - rewrite IHk. repeat case_decide; try done; intuition congruence.
  - repeat case_decide; try lia. intuition congruence.
Qed.

(** X6. Raising [max_duration] never loses a pair: an entry that is
    [reached] stays [reached], the [unknown] entries are the same, the
    counter of unknown pairs is unchanged and the counter of unreached pairs
    does not grow. *)
Theorem classify_results_monotone (md md' : Z) (res : list TimeDistance) :
  0 ≤ md → md ≤ md' → md' < 2 ^ 32 →
  (∀ i, routing_status <$> row (classify_results md res) !! i = Some reached →
        routing_status <$> row (classify_results md' res) !! i = Some reached) ∧
  (∀ i, routing_status <$> row (classify_results md res) !! i = Some unknown ↔
        routing_status <$> row (classify_results md' res) !! i = Some unknown) ∧
  nb_unknown (classify_results md' res) = nb_unknown (classify_results md res) ∧
  nb_unreached (classify_results md' res) ≤ nb_unreached (classify_results md res).
Proof.
  intros H0' Hle Hlt.
  destruct (classify_results_spec md res) as (Hrow & Hunk & Hunr).
  destruct (classify_results_spec md' res) as (Hrow' & Hunk' & Hunr').
  rewrite to_uint32_id in Hrow by lia. rewrite to_uint32_id in Hrow' by lia.
  destruct (count_status_monotone md md' res Hle) as (Hk & Hr).
  rewrite Hunk, Hunr, Hunk', Hunr', Hrow, Hrow'.
  split; [| split; [| done]].
  - intros i. rewrite !list_lookup_fmap. destruct (res !! i) as [elt |]; [| done].
    simpl. intros [= Hs]. f_equal. by apply (loop_status_monotone md md').
  - intros i. rewrite !list_lookup_fmap. destruct (res !! i) as [elt |]; [| done].
    simpl. destruct (loop_status_monotone md md' (time elt) Hle) as (Hiff & _).
    split; intros [= Hs]; f_equal; by apply Hiff.
Qed.

(** ** The kind of a served request and the order of line 116 *)

(** X7. Among served requests the kind plays no role: a direct-path
    request is handled exactly as the matrix request with the same
    [sn_routing_matrix] payload. *)
Theorem handle_ignores_served_kind (ord : assignment_order) (r1 r2 : Request) (w : world) :
  served r1 → served r2 →
  sn_routing_matrix r1 = sn_routing_matrix r2 →
  handle ord r1 w = handle ord r2 w.
Proof.
  intros H1 H2 Heq. rewrite !handle_served by done.
  unfold solve, project_locations, compute_matrix, make_response, sources, targets.
  by rewrite Heq.
Qed.

Lemma assign_mode_costing_order (m : string) (s : float) (w : world) :
  supported m →
  assign_mode_costing rhs_first m s w = assign_mode_costing lhs_first m s w.
Proof.
  intros Hm. destruct (to_costing_supported m Hm) as [c Hc].
  destruct (mode_map_supported m Hm) as [tm Htm].
  unfold assign_mode_costing, new_costing, mode_index, at_.
  rewrite Hc, Htm. destruct (make_costing_option m s) as [o | e]; reflexivity.
Qed.

(** X8. The order in which the two operands of line 116 are evaluated
    shows only on a served request with an unsupported mode: for every
    other request both orders give the same outcome and the same world. *)
Theorem handle_order_irrelevant (request : Request) (w : world) :
  ¬ served request ∨ supported (mode (sn_routing_matrix request)) →
  handle rhs_first request w = handle lhs_first request w.
Proof.
  intros [Hno | Hmode].
  - unfold handle. rewrite !bool_decide_eq_true_2; [done | |];
      intros Heq; apply Hno; unfold served; auto.
  - destruct (decide (served request)) as [Hserved | Hno].
    + rewrite !handle_split by done. unfold before_costing.
      rewrite !run_bind_assoc. apply run_bind_ext. intros _ w0.
      rewrite !run_bind. by rewrite assign_mode_costing_order.
    + unfold handle. rewrite !bool_decide_eq_true_2; [done | |];
        intros Heq; apply Hno; unfold served; auto.
Qed.

(** ** The costing slots across requests *)

Lemma same_costings_after_load request costing :
  respects same_costings (after_load request costing).
Proof.
  unfold after_load, LOG_INFO.
  pose proof same_costings_to_locations.
  step_respects costings.
Qed.

Lemma same_costings_after_costing request :
  respects same_costings (after_costing request).
Proof.
  unfold after_costing, LOG_INFO.
  pose proof same_costings_to_locations.
  step_respects costings.
Qed.

(** Line 116 stores into one slot the array has, or leaves the array. *)
Lemma assign_mode_costing_cases ord (m : string) (s : float) (w : world) :
  mode_costing (handler (assign_mode_costing ord m s w).2) = mode_costing (handler w) ∨
  ∃ i c, (i < length (mode_costing (handler w)))%nat ∧
         mode_costing (handler (assign_mode_costing ord m s w).2)
           = <[ i := Some c ]> (mode_costing (handler w)).
Proof.
  unfold assign_mode_costing, new_costing, factory_Create.
  destruct ord, (to_costing m) as [c | e], (make_costing_option m s) as [o | e'],
    (mode_index m) as [i | e'']; try (left; reflexivity);
    cbv [mbind M_bind mret M_ret lift emit store_mode_costing];
    cbn [handler trace mode_costing]; case_decide; try (left; reflexivity);
    right; eexists _, _; (split; [eassumption | reflexivity]).
Qed.

Lemma handle_costings_cases ord request (w : world) :
  mode_costing (handler (handle ord request w).2) = mode_costing (handler w) ∨
  ∃ i c, (i < length (mode_costing (handler w)))%nat ∧
         mode_costing (handler (handle ord request w).2)
           = <[ i := Some c ]> (mode_costing (handler w)).
Proof.
  destruct (decide (served request)) as [Hserved | Hno].
  - rewrite handle_split by done.
    pose proof (respects_after same_costings (before_costing ord request)
                  (λ _, after_costing request)
                  (λ _, same_costings_after_costing request) w) as Hafter.
    unfold same_costings in Hafter. rewrite Hafter. clear Hafter.
    unfold before_costing. rewrite run_bind. unfold LOG_INFO at 1. cbn [emit].
    match goal with
    | |- context [assign_mode_costing ord ?m ?s ?w0] =>
        destruct (assign_mode_costing_cases ord m s w0) as [Hsame | (i & c & Hi & Hins)]
    end.
    + left. exact Hsame.
    + right. exists i, c. split; [exact Hi | exact Hins].
  - left. unfold handle. rewrite !bool_decide_eq_true_2; [done | |];
      intros Heq; apply Hno; unfold served; auto.
Qed.

Lemma after_requests_cons ord request requests (w : world) :
  after_requests ord (request :: requests) w
  = after_requests ord requests (handle ord request w).2.
Proof. reflexivity. Qed.

Lemma after_requests_keep (ord : assignment_order) (requests : list Request) (w : world) :
  length (mode_costing (handler (after_requests ord requests w)))
    = length (mode_costing (handler w)) ∧
  (∀ j, holds_costing (handler w) j →
        holds_costing (handler (after_requests ord requests w)) j).
Proof.
  revert w. induction requests as [| request requests IH]; intros w; [done |].
  rewrite after_requests_cons.
  destruct (IH (handle ord request w).2) as (Hlen & Hholds).
  assert (Hone : length (mode_costing (handler (handle ord request w).2))
                   = length (mode_costing (handler w)) ∧
                 ∀ j, holds_costing (handler w) j →
                      holds_costing (handler (handle ord request w).2) j).
  { unfold holds_costing.
    destruct (handle_costings_cases ord request w) as [-> | (i & c & Hi & ->)]; [done |].
    split; [apply length_insert |].
    intros j [c' Hc'].
    destruct (decide (i = j)) as [-> | Hne].
    - exists c. by rewrite list_lookup_insert_eq.
    - exists c'. by rewrite list_lookup_insert_ne. }
  destruct Hone as (Hlen1 & Hholds1).
  split; [by rewrite Hlen | intros j Hj; by apply Hholds, Hholds1].
Qed.

(** X9. Whatever requests a handler serves and however they end, its
    costing array keeps its length, and a slot that holds a costing never
    becomes null again. *)
Theorem requests_keep_costings (ord : assignment_order) (requests : list Request) (w : world) :
  length (mode_costing (handler (after_requests ord requests w)))
    = length (mode_costing (handler w)) ∧
  (∀ j, holds_costing (handler w) j →
        holds_costing (handler (after_requests ord requests w)) j).
Proof. apply after_requests_keep. Qed.

(** ** The constructor *)

Lemma mode_index_car : mode_index "car" = Returns (TravelMode_value kDrive).
Proof. reflexivity. Qed.

Lemma mode_index_walking : mode_index "walking" = Returns (TravelMode_value kPedestrian).
Proof. reflexivity. Qed.

Lemma mode_index_bike : mode_index "bike" = Returns (TravelMode_value kBicycle).
Proof. reflexivity. Qed.

Lemma mode_index_Returns_inv (m : string) (i : nat) :
  mode_index m = Returns i →
  supported m ∧
  (i = TravelMode_value kDrive ∨ i = TravelMode_value kPedestrian ∨
   i = TravelMode_value kBicycle).
Proof.
  intros Hi. destruct (decide (supported m)) as [Hm | Hno].
  - split; [done |].
    destruct Hm as [-> | [-> | ->]]; injection Hi as <-; auto.
  - by rewrite mode_index_unsupported in Hi.
Qed.

(** The constructor on an array that has the three slots. *)
Lemma construct_run (g : GraphReader) (m : TimeDistanceMatrix) (p : Projector) (n : nat)
    (w : world) :
  (TravelMode_value kDrive < n)%nat →
  (TravelMode_value kPedestrian < n)%nat →
  (TravelMode_value kBicycle < n)%nat →
  construct g m p n w =
    (Returns tt,
     {| handler :=
          {| graph := g; matrix := m;
             mode_costing :=
               <[ TravelMode_value kBicycle :=
                    Some (CreateBicycleCost bicycle default_directions_options) ]>
                 (<[ TravelMode_value kPedestrian :=
                       Some (CreatePedestrianCost pedestrian default_directions_options) ]>
                    (<[ TravelMode_value kDrive :=
                          Some (CreateAutoCost auto_ default_directions_options) ]>
                       (replicate n None)));
             projector := p |};
        trace := trace w ++ [ Call_Create auto_ default_directions_options;
                              Call_Create pedestrian default_directions_options;
                              Call_Create bicycle default_directions_options ] |}).
Proof.
  intros Hd Hp Hb. unfold construct.
  rewrite mode_index_car, mode_index_walking, mode_index_bike.
  cbv [mbind M_bind mret M_ret lift emit factory_Create store_mode_costing registered
       set_mode_costing].
  repeat (cbn [handler trace mode_costing graph matrix projector];
          rewrite decide_True by (by rewrite ?length_insert, length_replicate)).
  cbn [handler trace mode_costing graph matrix projector].
  by rewrite <- !app_assoc.
Qed.

(** X10. On an array that has a slot for each of the three travel modes,
    the constructor returns with graph, matrix and projector as given, has
    asked the factory for the automobile, pedestrian and bicycle costing of
    the default options, in this order, and leaves a costing in the slot of
    every supported mode; when the three modes have three different slots,
    each holds its own costing and every other slot is null. *)
Theorem construct_fills_slots (g : GraphReader) (m : TimeDistanceMatrix) (p : Projector)
    (n : nat) (w : world) :
  (TravelMode_value kDrive < n)%nat →
  (TravelMode_value kPedestrian < n)%nat →
  (TravelMode_value kBicycle < n)%nat →
  ∃ w',
    construct g m p n w = (Returns tt, w') ∧
    graph (handler w') = g ∧ matrix (handler w') = m ∧ projector (handler w') = p ∧
    length (mode_costing (handler w')) = n ∧
    emitted w w' [ Call_Create auto_ default_directions_options;
                   Call_Create pedestrian default_directions_options;
                   Call_Create bicycle default_directions_options ] ∧
    (∀ mode_ i, mode_index mode_ = Returns i → holds_costing (handler w') i) ∧
    (TravelMode_value kDrive ≠ TravelMode_value kPedestrian →
     TravelMode_value kDrive ≠ TravelMode_value kBicycle →
     TravelMode_value kPedestrian ≠ TravelMode_value kBicycle →
     mode_costing (handler w') !! TravelMode_value kDrive
       = Some (Some (CreateAutoCost auto_ default_directions_options)) ∧
     mode_costing (handler w') !! TravelMode_value kPedestrian
       = Some (Some (CreatePedestrianCost pedestrian default_directions_options)) ∧
     mode_costing (handler w') !! TravelMode_value kBicycle
       = Some (Some (CreateBicycleCost bicycle default_directions_options)) ∧
     (∀ j, (j < n)%nat →
           j ≠ TravelMode_value kDrive → j ≠ TravelMode_value kPedestrian →
           j ≠ TravelMode_value kBicycle →
           mode_costing (handler w') !! j = Some None)).
Proof.
  intros Hd Hp Hb. eexists. split; [by apply construct_run |].
  cbn [handler graph matrix projector mode_costing trace].
  repeat (split; [first [ reflexivity | by rewrite ?length_insert, length_replicate ] |]).
  split.
  - intros mode_ i Hi. apply mode_index_Returns_inv in Hi as [_ Hi].
    unfold holds_costing. cbn [mode_costing].
    destruct (decide (i = TravelMode_value kBicycle)) as [-> | Hnb].
    { eexists. apply list_lookup_insert_eq. by rewrite ?length_insert, length_replicate. }
    rewrite list_lookup_insert_ne by done.
    destruct (decide (i = TravelMode_value kPedestrian)) as [-> | Hnp].
    { eexists. apply list_lookup_insert_eq. by rewrite ?length_insert, length_replicate. }
    rewrite list_lookup_insert_ne by done.
    destruct Hi as [-> | [-> | ->]]; try done.
    eexists. apply list_lookup_insert_eq. by rewrite ?length_insert, length_replicate.
  - intros Hdp Hdb Hpb. split; [| split; [| split]].
    + rewrite !list_lookup_insert_ne by done. apply list_lookup_insert_eq. by rewrite ?length_insert, length_replicate.
    + rewrite list_lookup_insert_ne by done. apply list_lookup_insert_eq. by rewrite ?length_insert, length_replicate.
    + apply list_lookup_insert_eq. by rewrite ?length_insert, length_replicate.
    + intros j Hj Hjd Hjp Hjb. rewrite !list_lookup_insert_ne by done.
      by apply lookup_replicate_2.
Qed.

(** ** A served request for a supported mode *)

Lemma before_costing_run ord request (w : world) costing options i :
  to_costing (mode (sn_routing_matrix request)) = Returns costing →
  make_costing_option (mode (sn_routing_matrix request)) (speed (sn_routing_matrix request))
    = Returns options →
  mode_index (mode (sn_routing_matrix request)) = Returns i →
  (i < length (mode_costing (handler w)))%nat →
  before_costing ord request w = (Returns tt, costed request costing options i w).
Proof.
  intros Hc Ho Hi Hlt. unfold before_costing. rewrite run_bind.
  unfold LOG_INFO at 1. cbn [emit].
  erewrite assign_mode_costing_run by done.
  unfold costed. cbn [handler trace]. by rewrite <- app_assoc.
Qed.

(** Such a request runs lines 119-169 with the costing just created. *)
Lemma handle_run_supported ord request (w : world) costing options i :
  served request →
  to_costing (mode (sn_routing_matrix request)) = Returns costing →
  make_costing_option (mode (sn_routing_matrix request)) (speed (sn_routing_matrix request))
    = Returns options →
  mode_index (mode (sn_routing_matrix request)) = Returns i →
  (i < length (mode_costing (handler w)))%nat →
  handle ord request w =
    after_load request (Some (registered costing costing options))
      (costed request costing options i w).
Proof.
  intros Hserved Hc Ho Hi Hlt. rewrite handle_split by done.
  rewrite (run_bind_Returns _ _ _ _ _ (before_costing_run ord request w _ _ _ Hc Ho Hi Hlt)).
  unfold after_costing. rewrite run_bind, Hi. cbn [lift].
  rewrite run_bind. unfold load_mode_costing at 1, costed at 1.
  cbn [handler mode_costing set_mode_costing].
  by rewrite list_lookup_insert_eq.
Qed.

Lemma handle_costings_supported ord request (w : world) costing options i :
  served request →
  to_costing (mode (sn_routing_matrix request)) = Returns costing →
  make_costing_option (mode (sn_routing_matrix request)) (speed (sn_routing_matrix request))
    = Returns options →
  mode_index (mode (sn_routing_matrix request)) = Returns i →
  (i < length (mode_costing (handler w)))%nat →
  mode_costing (handler (handle ord request w).2)
    = <[ i := Some (registered costing costing options) ]> (mode_costing (handler w)).
Proof.
  intros Hserved Hc Ho Hi Hlt.
  rewrite (handle_run_supported ord request w _ _ _ Hserved Hc Ho Hi Hlt).
  by rewrite (same_costings_after_load request _ (costed request costing options i w)).
Qed.

(** X11. Two requests in a row: after the second, its mode's slot holds
    the costing made from the second request's speed, whatever the first
    request stored there; when the first request was for another mode,
    that mode's slot still holds the first request's costing; all other
    slots are as before the two. *)
Theorem consecutive_requests (ord : assignment_order) (r1 r2 : Request) (w : world)
    (i1 i2 : nat) :
  served r1 → served r2 →
  supported (mode (sn_routing_matrix r1)) → supported (mode (sn_routing_matrix r2)) →
  (Costing_value pedestrian < 12)%nat →
  (Costing_value bicycle < 12)%nat →
  mode_index (mode (sn_routing_matrix r1)) = Returns i1 →
  mode_index (mode (sn_routing_matrix r2)) = Returns i2 →
  (i1 < length (mode_costing (handler w)))%nat →
  (i2 < length (mode_costing (handler w)))%nat →
  ∃ c1 o1 c2 o2,
    to_costing (mode (sn_routing_matrix r1)) = Returns c1 ∧
    make_costing_option (mode (sn_routing_matrix r1)) (speed (sn_routing_matrix r1))
      = Returns o1 ∧
    to_costing (mode (sn_routing_matrix r2)) = Returns c2 ∧
    make_costing_option (mode (sn_routing_matrix r2)) (speed (sn_routing_matrix r2))
      = Returns o2 ∧
    mode_costing (handler (after_requests ord [r1; r2] w)) !! i2
      = Some (Some (registered c2 c2 o2)) ∧
    (i1 ≠ i2 →
     mode_costing (handler (after_requests ord [r1; r2] w)) !! i1
       = Some (Some (registered c1 c1 o1))) ∧
    (∀ j, j ≠ i1 → j ≠ i2 →
          mode_costing (handler (after_requests ord [r1; r2] w)) !! j
          = mode_costing (handler w) !! j).
Proof.
  intros Hs1 Hs2 Hm1 Hm2 Hp Hb Hi1 Hi2 Hlt1 Hlt2.
  destruct (to_costing_supported _ Hm1) as [c1 Hc1].
  destruct (to_costing_supported _ Hm2) as [c2 Hc2].
  pose proof (make_costing_option_Returns (mode (sn_routing_matrix r1))
                (speed (sn_routing_matrix r1)) Hp Hb) as Ho1.
  pose proof (make_costing_option_Returns (mode (sn_routing_matrix r2))
                (speed (sn_routing_matrix r2)) Hp Hb) as Ho2.
  exists c1. eexists. exists c2. eexists.
  split; [exact Hc1 |]. split; [exact Ho1 |]. split; [exact Hc2 |]. split; [exact Ho2 |].
  rewrite !after_requests_cons. change (after_requests ord [] ?x) with x.
  pose proof (handle_costings_supported ord r1 w _ _ _ Hs1 Hc1 Ho1 Hi1 Hlt1) as H1.
  assert (Hlt2' : (i2 < length (mode_costing (handler (handle ord r1 w).2)))%nat).
  { by rewrite H1, length_insert. }
  rewrite (handle_costings_supported ord r2 _ _ _ _ Hs2 Hc2 Ho2 Hi2 Hlt2'), H1.
  split; [| split].
  - apply list_lookup_insert_eq. by rewrite length_insert.
  - intros Hne. rewrite list_lookup_insert_ne by done. by apply list_lookup_insert_eq.
  - intros j Hj1 Hj2. by rewrite !list_lookup_insert_ne.
Qed.

(** ** The costing the collaborators get *)

#[local] Instance sees_costings_refl : Reflexive sees_costings.
Proof.
  intros w. split; [done |]. exists []. split; [| constructor].
  unfold emitted. by rewrite app_nil_r.
Qed.

#[local] Instance sees_costings_trans : Transitive sees_costings.
Proof.
  intros w1 w2 w3 (Hmc12 & evs & H12 & HP) (Hmc23 & evs' & H23 & HP').
  split; [congruence |]. exists (evs ++ evs'). unfold emitted in *. split.
  - by rewrite H23, H12, app_assoc.
  - apply Forall_app. split; [done |]. rewrite Hmc12 in HP'. done.
Qed.

Lemma sees_costings_one (w w' : world) (ev : event) :
  mode_costing (handler w') = mode_costing (handler w) →
  trace w' = trace w ++ [ev] →
  match ev with
  | Call_SourceToTarget _ _ costings _ _ => costings = mode_costing (handler w)
  | _ => True
  end →
  sees_costings w w'.
Proof. intros Hmc Htr Hev. split; [done |]. exists [ev]. split; [done | by constructor]. Qed.

Lemma sees_costings_emit ev :
  match ev with Call_SourceToTarget _ _ _ _ _ => False | _ => True end →
  respects sees_costings (emit ev).
Proof. intros Hev w. eapply sees_costings_one; [done | done |]. by destruct ev. Qed.

Lemma sees_costings_call_projector places mode_ costing :
  respects sees_costings (call_projector places mode_ costing).
Proof.
  intros w. unfold call_projector. destruct (projector_call _ _ _ _ _) as [[r p] g].
  by eapply sees_costings_one.
Qed.

Lemma sees_costings_toPBF pl : respects sees_costings (toPBF pl).
Proof.
  intros w. unfold toPBF. destruct (PathLocation_toPBF _ _). by eapply sees_costings_one.
Qed.

Lemma sees_costings_call_SourceToTarget srcs tgts tm d :
  respects sees_costings (call_SourceToTarget srcs tgts tm d).
Proof.
  intros w. unfold call_SourceToTarget.
  destruct (SourceToTarget _ _ _ _ _ _ _) as [[r m] g]. by eapply sees_costings_one.
Qed.

Lemma sees_costings_trim_graph : respects sees_costings trim_graph.
Proof.
  intros w. unfold trim_graph. destruct (OverCommitted _).
  - split; [done |]. exists [Call_OverCommitted; Call_Clear].
    split; [done | by repeat constructor].
  - by eapply sees_costings_one.
Qed.

Lemma sees_costings_to_locations path_locations places :
  respects sees_costings (to_locations path_locations places).
Proof.
  induction places as [| e places IH]; simpl; step_respects costings.
  apply sees_costings_toPBF.
Qed.

Lemma sees_costings_after_load request costing :
  respects sees_costings (after_load request costing).
Proof.
  unfold after_load, compute_matrix, make_response, LOG_INFO.
  step_respects costings;
    try (apply sees_costings_emit; exact I);
    try apply sees_costings_to_locations;
    try apply sees_costings_call_projector;
    try apply sees_costings_call_SourceToTarget;
    apply sees_costings_trim_graph.
Qed.

Lemma projects_with_after_load request costing :
  respects (emits (projects_with costing)) (after_load request costing).
Proof.
  unfold after_load, compute_matrix, make_response, LOG_INFO.
  step_respects costings;
    try (apply emits_emit; exact I);
    try (apply emits_to_locations; intros; exact I);
    try (apply emits_call_projector; reflexivity);
    try (apply emits_call_SourceToTarget; intros; exact I);
    apply emits_trim_graph; exact I.
Qed.

(** An event is not in a list of events of other kinds. *)
Ltac other_events Hin :=
  repeat (apply elem_of_cons in Hin as [Hin | Hin]; [discriminate Hin |]);
  apply elem_of_nil in Hin.

(** X12. On a served request for a supported mode, the costing stored at
    line 116 is the one the projector is called with, and the array the
    matrix is called with holds it in the slot of the travel mode that is
    passed along: the collaborators work with the costing of this
    request's speed, not with an older one. *)
Theorem collaborators_get_fresh_costing (ord : assignment_order) (request : Request)
    (w : world) (i : nat) :
  served request →
  supported (mode (sn_routing_matrix request)) →
  (Costing_value pedestrian < 12)%nat →
  (Costing_value bicycle < 12)%nat →
  mode_index (mode (sn_routing_matrix request)) = Returns i →
  (i < length (mode_costing (handler w)))%nat →
  ∃ costing options evs,
    to_costing (mode (sn_routing_matrix request)) = Returns costing ∧
    make_costing_option (mode (sn_routing_matrix request))
      (speed (sn_routing_matrix request)) = Returns options ∧
    emitted w (handle ord request w).2 evs ∧
    (∀ places mode_ c, Call_projector places mode_ c ∈ evs →
                       c = Some (registered costing costing options)) ∧
    (∀ srcs tgts costings tm d,
       Call_SourceToTarget srcs tgts costings tm d ∈ evs →
       costings = <[ i := Some (registered costing costing options) ]>
                    (mode_costing (handler w)) ∧
       i = TravelMode_value tm ∧
       costings !! TravelMode_value tm = Some (Some (registered costing costing options))).
Proof.
  intros Hserved Hmode Hp Hb Hi Hlt.
  destruct (to_costing_supported _ Hmode) as [costing Hc].
  pose proof (make_costing_option_Returns (mode (sn_routing_matrix request))
                (speed (sn_routing_matrix request)) Hp Hb) as Ho.
  match type of Ho with
  | _ = Returns ?o => remember o as options eqn:Hoptions
  end.
  clear Hoptions. exists costing, options.
  pose proof (handle_run_supported ord request w _ _ _ Hserved Hc Ho Hi Hlt) as Hrun.
  destruct (projects_with_after_load request (Some (registered costing costing options))
              (costed request costing options i w))
    as (evs1 & Hevs1 & Hproj).
  destruct (sees_costings_after_load request (Some (registered costing costing options))
              (costed request costing options i w))
    as (_ & evs2 & Hevs2 & Hsees).
  rewrite <- Hrun in Hevs1, Hevs2.
  unfold emitted in Hevs1, Hevs2. rewrite Hevs1 in Hevs2.
  apply app_inv_head in Hevs2 as <-.
  destruct (handle_well_called ord request w) as (evs & Hevs & Hcalls).
  eexists. split; [exact Hc |]. split; [exact Ho |].
  split.
  { unfold emitted. rewrite Hevs1. unfold costed. cbn [trace].
    rewrite <- app_assoc. reflexivity. }
  rewrite Forall_forall in Hproj, Hsees.
  split.
  - intros places mode_ c Hin.
    apply elem_of_app in Hin as [Hin | Hin]; [exfalso; by other_events Hin |].
    by apply Hproj in Hin.
  - intros srcs tgts costings tm d Hin.
    assert (Hin' : Call_SourceToTarget srcs tgts costings tm d ∈ evs).
    { unfold emitted in Hevs. rewrite Hevs1 in Hevs. unfold costed in Hevs.
      cbn [trace] in Hevs. rewrite <- app_assoc in Hevs.
      by apply app_inv_head in Hevs as <-. }
    rewrite Forall_forall in Hcalls. apply Hcalls in Hin' as [Htm _].
    assert (Hidx : i = TravelMode_value tm).
    { unfold mode_index, at_ in Hi. rewrite Htm in Hi. by injection Hi as <-. }
    apply elem_of_app in Hin as [Hin | Hin]; [exfalso; by other_events Hin |].
    apply Hsees in Hin. unfold costed in Hin. cbn [handler mode_costing set_mode_costing] in Hin.
    split; [exact Hin |]. split; [exact Hidx |].
    rewrite Hin, <- Hidx. by apply list_lookup_insert_eq.
Qed.

(** ** Trimming the graph cache *)


(** Lines 142-169 on a sequence of the asserted length, step by step. *)
Lemma make_response_run request res (w : world) :
  length res = (length (sources request) * length (targets request))%nat →
  make_response request res w =
    (Returns {| response_sn_routing_matrix :=
                  Some {| rows := [ {| routing_response :=
                                         row (classify_results
                                                (max_duration (sn_routing_matrix request)) res) |} ] |} |},
     {| handler :=
          if OverCommitted (graph (handler w))
          then set_graph (Clear (graph (handler w))) (handler w)
          else handler w;
        trace :=
          trace w ++
          [ Log_info ("Request done with " +:+
                      to_string (nb_unknown (classify_results
                                               (max_duration (sn_routing_matrix request)) res)) +:+
                      " unknown and " +:+
                      to_string (nb_unreached (classify_results
                                                 (max_duration (sn_routing_matrix request)) res)) +:+
                      " unreached");
            Call_OverCommitted ] ++
          (if OverCommitted (graph (handler w)) then [Call_Clear] else []) ++
          [ Log_info "Everything is clear." ] |}).
Proof.
  intros Hlen. unfold make_response. rewrite run_bind.
  rewrite bool_decide_eq_true_2 by done. cbn [assert mret M_ret].
  unfold trim_graph, LOG_INFO, emit. rewrite !run_bind. cbn [handler graph trace].
  destruct (OverCommitted (graph (handler w)));
    rewrite ?run_bind; cbn [handler graph trace mret M_ret];
    rewrite <- !app_assoc; cbn [app]; reflexivity.
Qed.

(** An event is in a list that shows it. *)
Ltac in_list :=
  repeat first [ by apply list_elem_of_here | apply list_elem_of_further ].


(** ** The loops over the projected locations *)

Lemma toPBF_run (pl : PathLocation) (w : world) :
  ∃ l w', toPBF pl w = (Returns l, w') ∧ trace w' = trace w ++ [Call_toPBF pl].
Proof.
  unfold toPBF. destruct (PathLocation_toPBF pl (graph (handler w))) as [l g].
  by eexists _, _.
Qed.

Lemma to_locations_Returns_inv path_locations (places : list string) (w w' : world)
    (ls : list Location) :
  to_locations path_locations places w = (Returns ls, w') →
  ∃ found,
    Forall2 (λ e pl, path_locations !! e = Some pl) places found ∧
    length ls = length places ∧
    trace w' = trace w ++ (Call_toPBF <$> found).
Proof.
  revert w ls. induction places as [| e places IH]; intros w ls Hrun.
  - injection Hrun as <- <-. exists []. by rewrite app_nil_r.
  - cbn [to_locations] in Hrun.
    apply bind_Returns_inv in Hrun as (pl & w0 & Hpl & Hrun).
    apply lift_Returns_inv in Hpl as [Hpl ->]. apply at_Returns in Hpl.
    apply bind_Returns_inv in Hrun as (l & w1 & Hl & Hrun).
    destruct (toPBF_run pl w) as (l' & w1' & Hl' & Htr). rewrite Hl in Hl'.
    injection Hl' as <- <-.
    apply bind_Returns_inv in Hrun as (ls' & w2 & Hls & Hrun).
    injection Hrun as <- <-.
    destruct (IH _ _ Hls) as (found & Hfound & Hlen & Htr').
    exists (pl :: found). split; [by constructor |]. split; [simpl; by rewrite Hlen |].
    rewrite Htr', Htr, fmap_cons, <- app_assoc. reflexivity.
Qed.

Lemma to_locations_Fails_inv path_locations (places : list string) (w w' : world)
    (e : failure) :
  to_locations path_locations places w = (Fails e, w') →
  e = std_out_of_range ∧ Exists (λ p, path_locations !! p = None) places.
Proof.
  intros Hrun.
  destruct (decide (Exists (λ p, path_locations !! p = None) places)) as [Hex | Hall].
  - destruct (to_locations_missing path_locations places w Hex) as [w'' Hw''].
    rewrite Hrun in Hw''. by injection Hw'' as -> _.
  - apply not_Exists_Forall in Hall; [| intros ?; apply _].
    destruct (to_locations_total path_locations places w) as (ls & w'' & Hw'' & _).
    { eapply Forall_impl; [exact Hall |]. intros x Hx. simpl in Hx.
      destruct (path_locations !! x); [by eexists | done]. }
    by rewrite Hrun in Hw''.
Qed.

(** X14. Each of the two loops of lines 126-131 returns exactly when the
    mapping has every place of its list; it then gives one location per
    place and has converted the mapped path locations in the order of the
    list.  Otherwise it fails with [std::out_of_range], and with nothing
    else. *)
Theorem to_locations_returns_iff_total (path_locations : gmap string PathLocation)
    (places : list string) (w : world) :
  (Forall (λ e, is_Some (path_locations !! e)) places ↔
   ∃ ls w', to_locations path_locations places w = (Returns ls, w')) ∧
  (∀ ls w', to_locations path_locations places w = (Returns ls, w') →
     ∃ found,
       Forall2 (λ e pl, path_locations !! e = Some pl) places found ∧
       length ls = length places ∧
       emitted w w' (Call_toPBF <$> found)) ∧
  (∀ e w', to_locations path_locations places w = (Fails e, w') →
     e = std_out_of_range ∧ Exists (λ p, path_locations !! p = None) places).
Proof.
  split; [| split].
  - split.
    + intros Hall. destruct (to_locations_total _ _ w Hall) as (ls & w' & Hrun & _).
      by exists ls, w'.
    + intros (ls & w' & Hrun).
      apply to_locations_Returns_inv in Hrun as (found & Hfound & _).
      apply Forall_forall. intros e He.
      apply list_elem_of_lookup in He as [k Hk].
      destruct (Forall2_lookup_l _ _ _ _ _ Hfound Hk) as (pl & _ & Hpl). by exists pl.
  - intros ls w' Hrun. by apply to_locations_Returns_inv in Hrun.
  - intros e w' Hrun. by apply to_locations_Fails_inv in Hrun.
Qed.

(** ** The calls of a request that gets a response *)

Lemma assign_mode_costing_Returns_inv ord (m : string) (s : float) (w w' : world) (u : unit) :
  assign_mode_costing ord m s w = (Returns u, w') →
  ∃ costing options i,
    to_costing m = Returns costing ∧
    make_costing_option m s = Returns options ∧
    mode_index m = Returns i ∧
    (i < length (mode_costing (handler w)))%nat ∧
    trace w' = trace w ++ [Call_Create costing options].
Proof.
  unfold assign_mode_costing, new_costing, factory_Create.
  destruct ord, (to_costing m) as [c | e], (make_costing_option m s) as [o | e'],
    (mode_index m) as [i | e'']; try discriminate;
    cbv [mbind M_bind mret M_ret lift emit store_mode_costing];
    cbn [handler trace mode_costing]; case_decide; try discriminate;
    intros Heq; injection Heq as _ <-; by exists c, o, i.
Qed.

(** X15. A served request that gets a response was for a supported mode
    and has made, in this order and with nothing but log lines in between:
    one call of the factory, one call of the projector on the origins
    followed by the destinations, one conversion per origin and then one
    per destination, one call of the matrix, one query of the graph and,
    at most, one [Clear]. *)
Theorem response_call_sequence (ord : assignment_order) (request : Request)
    (w w' : world) (resp : Response) :
  served request →
  handle ord request w = (Returns resp, w') →
  supported (mode (sn_routing_matrix request)) ∧
  ∃ costing options v found_s found_t srcs tgts costings tm d m1 m2 m3 m4 m5 m6 m7 cleared,
    length found_s = length (origins (sn_routing_matrix request)) ∧
    length found_t = length (destinations (sn_routing_matrix request)) ∧
    length srcs = length found_s ∧ length tgts = length found_t ∧
    emitted w w'
      ([ Log_info m1; Call_Create costing options; Log_info m2;
         Call_projector (sources request ++ targets request)
           (mode (sn_routing_matrix request)) v;
         Log_info m3 ]
       ++ (Call_toPBF <$> found_s) ++ (Call_toPBF <$> found_t)
       ++ [ Log_info m4; Call_SourceToTarget srcs tgts costings tm d;
            Log_info m5; Log_info m6; Call_OverCommitted ]
       ++ (if cleared : bool then [Call_Clear] else [])
       ++ [ Log_info m7 ]).
Proof.
  intros Hserved Hrun. rewrite handle_split in Hrun by done.
  apply bind_Returns_inv in Hrun as (u & wb & Hbefore & Hafter).
  unfold before_costing, LOG_INFO in Hbefore.
  apply bind_Returns_inv in Hbefore as (u0 & w0 & Hlog & Hassign).
  apply emit_Returns_inv in Hlog as [_ Ht0].
  apply assign_mode_costing_Returns_inv in Hassign
    as (costing & options & i & Hc & Ho & Hi & Hlt & Htb).
  split.
  { by apply mode_index_Returns_inv in Hi as [Hm _]. }
  unfold after_costing, LOG_INFO in Hafter.
  apply bind_Returns_inv in Hafter as (i' & wi & Hi' & Hafter).
  apply lift_Returns_inv in Hi' as [_ ->].
  apply bind_Returns_inv in Hafter as (v & wl & Hl & Hafter).
  apply load_Returns_inv in Hl as [_ ->].
  apply bind_Returns_inv in Hafter as (u2 & wc & Hlc & Hafter).
  apply emit_Returns_inv in Hlc as [_ Htc].
  apply bind_Returns_inv in Hafter as (pls & wd & Hd & Hafter).
  apply call_projector_Returns_inv in Hd as [_ Htd].
  apply bind_Returns_inv in Hafter as (u3 & we & Hle & Hafter).
  apply emit_Returns_inv in Hle as [_ Hte].
  apply bind_Returns_inv in Hafter as (res & wf & Hcomp & Hresp).
  unfold compute_matrix, LOG_INFO in Hcomp.
  apply bind_Returns_inv in Hcomp as (srcs & ws & Hs & Hcomp).
  apply to_locations_Returns_inv in Hs as (found_s & Hfs & Hls & Hts).
  apply bind_Returns_inv in Hcomp as (tgts & wt & Ht & Hcomp).
  apply to_locations_Returns_inv in Ht as (found_t & Hft & Hlt' & Htt).
  apply bind_Returns_inv in Hcomp as (u4 & wg & Hlg & Hcomp).
  apply emit_Returns_inv in Hlg as [_ Htg].
  apply bind_Returns_inv in Hcomp as (tm & wm & Hm & Hcomp).
  apply lift_Returns_inv in Hm as [_ ->].
  apply bind_Returns_inv in Hcomp as (res' & wh & Hcall & Hcomp).
  apply call_SourceToTarget_Returns_inv in Hcall as [_ Hth].
  apply bind_Returns_inv in Hcomp as (u5 & wk & Hlk & Hcomp).
  apply emit_Returns_inv in Hlk as [_ Htk].
  injection Hcomp as -> ->.
  destruct (decide (length res =
                    (length (sources request) * length (targets request))%nat))
    as [Hlen | Hlen]; [| by rewrite make_response_Fails in Hresp].
  rewrite make_response_run in Hresp by done. injection Hresp as _ <-.
  apply Forall2_length in Hfs, Hft. unfold sources, targets in Hfs, Hft.
  rewrite length_fmap in Hfs, Hft.
  exists costing, options, v, found_s, found_t, srcs, tgts.
  eexists _, tm, _, _, _, _, _, _, _, _, (OverCommitted (graph (handler wf))).
  split; [done |]. split; [done |].
  split; [unfold sources in Hls; rewrite length_fmap in Hls; congruence |].
  split; [unfold targets in Hlt'; rewrite length_fmap in Hlt'; congruence |].
  unfold emitted. cbn [trace].
  rewrite Htk, Hth, Htg, Htt, Hts, Hte, Htd, Htc, Htb, Ht0.
  rewrite <- !app_assoc. cbn [app]. reflexivity.
Qed.

(** ** A request without origins or without destinations *)

(** X16. When a served request has no origin or no destination and the
    matrix has answered, an empty answer gives a response with one row
    that has no entry (not the response without matrix of a wrong kind),
    logged with both counters at zero; any other answer stops at the
    assertion. *)
Theorem empty_request_single_empty_row (ord : assignment_order) (request : Request)
    (w w1 : world) (res : list TimeDistance) :
  served request →
  origins (sn_routing_matrix request) = [] ∨ destinations (sn_routing_matrix request) = [] →
  solve ord request w = (Returns res, w1) →
  (res = [] →
   ∃ w', handle ord request w =
           (Returns {| response_sn_routing_matrix :=
                         Some {| rows := [ {| routing_response := [] |} ] |} |}, w') ∧
         Log_info "Request done with 0 unknown and 0 unreached" ∈ trace w') ∧
  (res ≠ [] → handle ord request w = (Fails assertion_failed, w1)).
Proof.
  intros Hserved Hempty Hsolve.
  assert (Hzero : (length (sources request) * length (targets request))%nat = 0%nat).
  { unfold sources, targets. rewrite !length_fmap.
    destruct Hempty as [-> | ->]; simpl; lia. }
  rewrite (handle_solved _ _ _ _ _ Hserved Hsolve). split.
  - intros ->. rewrite make_response_run by (by rewrite Hzero).
    eexists. split; [reflexivity |]. cbn [trace].
    apply elem_of_app. right. in_list.
  - intros Hne. apply make_response_Fails. rewrite Hzero.
    destruct res; [done | simpl; lia].
Qed.

End Properties.

(** * The properties on the stub engine *)

(** Closed equations are settled by evaluation. *)
Ltac by_vm :=
  match goal with
  | |- ?x = _ => vm_cast_no_check (@eq_refl _ x)
  end.

#[local] Existing Instance Stub.scalars.
#[local] Existing Instance Stub.scenario_engine.

(** The stub handler is the one the constructor builds. *)
Example construct_stub :
  construct 0%nat tt tt 4 Stub.scenario_world =
    (Returns tt,
     {| handler := handler Stub.scenario_world;
        trace := [ Call_Create auto_ default_directions_options;
                   Call_Create pedestrian default_directions_options;
                   Call_Create bicycle default_directions_options ] |}).
Proof. by_vm. Qed.

(** An unsupported mode under each of the two orders of line 116. *)
Example train_rhs_first :
  (handle rhs_first Stub.train_request Stub.scenario_world).1 = Fails std_invalid_argument.
Proof. by_vm. Qed.

Example train_lhs_first :
  (handle lhs_first Stub.train_request Stub.scenario_world).1 = Fails std_out_of_range.
Proof. by_vm. Qed.



Lemma C2_costing_option_speed_witness :
  (Costing_value pedestrian < 12)%nat ∧
  (Costing_value bicycle < 12)%nat ∧
  (Costing_value auto_ < 12)%nat ∧
  Costing_value auto_ ≠ Costing_value pedestrian ∧
  Costing_value auto_ ≠ Costing_value bicycle ∧
  ∃ options,
    make_costing_option "car" (Stub.mps 5 1) = Returns options ∧
    walking_speed <$> costing_options options !! Costing_value pedestrian
      = Some (Some (Stub.mps 18 1)) ∧
    walking_speed <$> costing_options options !! Costing_value bicycle
      = Some (Some (Stub.mps 18 1)) ∧
    costing_options options !! Costing_value auto_
      = costing_options default_directions_options !! Costing_value auto_ ∧
    costing_options options !! Costing_value auto_ = Some {| walking_speed := None |}.
Proof.
  repeat (split; [vm_compute; lia |]).
  apply (C2_costing_option_speed "car" (Stub.mps 5 1)); vm_compute; lia.
Defined.

Lemma C3_unsupported_mode_aborts_witness :
  served Stub.train_request ∧
  ¬ supported (mode (sn_routing_matrix Stub.train_request)) ∧
  to_costing "train" = Fails std_invalid_argument ∧
  ∃ w',
    handle lhs_first Stub.train_request Stub.scenario_world = (Fails std_out_of_range, w') ∧
    handler w' = handler Stub.scenario_world.
Proof.
  assert (Hserved : served Stub.train_request) by (left; reflexivity).
  assert (Hmode : ¬ supported (mode (sn_routing_matrix Stub.train_request))).
  { vm_compute. intros [Hm | [Hm | Hm]]; discriminate Hm. }
  split; [exact Hserved |]. split; [exact Hmode |].
  destruct (C3_unsupported_mode_aborts lhs_first Stub.train_request Stub.scenario_world
              Hserved Hmode) as (Hto & e & w' & Hrun & Hh & _ & _ & ->).
  split; [exact Hto |]. exists w'. split; [exact Hrun | exact Hh].
Defined.

Lemma C4_scenario_two_by_three_witness :
  requested_api Stub.scenario_request = street_network_routing_matrix ∧
  length (origins (sn_routing_matrix Stub.scenario_request)) = 2%nat ∧
  length (destinations (sn_routing_matrix Stub.scenario_request)) = 3%nat ∧
  mode (sn_routing_matrix Stub.scenario_request) = "walking" ∧
  max_duration (sn_routing_matrix Stub.scenario_request) = 600 ∧
  solve rhs_first Stub.scenario_request Stub.scenario_world =
    (Returns Stub.scenario_results,
     (solve rhs_first Stub.scenario_request Stub.scenario_world).2) ∧
  time <$> Stub.scenario_results = [100; kMaxCost; 700; 50; 599; 601] ∧
  (kMaxCost ∉ [100; 700; 50; 599; 601]) ∧
  ∃ r w',
    handle rhs_first Stub.scenario_request Stub.scenario_world =
      (Returns {| response_sn_routing_matrix := Some {| rows := [r] |} |}, w') ∧
    routing_status <$> routing_response r
      = [reached; unknown; unreached; reached; reached; unreached] ∧
    nb_unknown (classify_results 600 Stub.scenario_results) = 1 ∧
    nb_unreached (classify_results 600 Stub.scenario_results) = 2 ∧
    Log_info "Request done with 1 unknown and 2 unreached" ∈ trace w'.
Proof.
  assert (Hsentinel : kMaxCost ∉ [100; 700; 50; 599; 601]).
  { vm_compute. intros Hin. repeat (apply elem_of_cons in Hin as [Hin | Hin]; [lia |]).
    by apply elem_of_nil in Hin. }
  repeat (split; [first [ exact Hsentinel | by_vm ] |]).
  apply (C4_scenario_two_by_three rhs_first Stub.scenario_request Stub.scenario_world
           (solve rhs_first Stub.scenario_request Stub.scenario_world).2
           Stub.scenario_results);
    first [ exact Hsentinel | by_vm ].
Defined.

Lemma C5_result_count_asserted_witness :
  served Stub.scenario_request ∧
  handle (H0 := Stub.engine (take 1 Stub.scenario_results)) rhs_first Stub.scenario_request
      (Stub.world0 (take 1 Stub.scenario_results)) =
    (Fails assertion_failed,
     (solve (H0 := Stub.engine (take 1 Stub.scenario_results)) rhs_first Stub.scenario_request
        (Stub.world0 (take 1 Stub.scenario_results))).2).
Proof.
  assert (Hserved : served Stub.scenario_request) by (left; reflexivity).
  split; [exact Hserved |].
  apply (proj2 (C5_result_count_asserted (H0 := Stub.engine (take 1 Stub.scenario_results))
                  rhs_first Stub.scenario_request
                  (Stub.world0 (take 1 Stub.scenario_results)) Hserved)
           (take 1 Stub.scenario_results)).
  - by_vm.
  - vm_compute. lia.
Defined.

Lemma C6_wrong_kind_empty_response_witness :
  requested_api (Stub.other_request "places") ≠ street_network_routing_matrix ∧
  requested_api (Stub.other_request "places") ≠ direct_path ∧
  handle rhs_first (Stub.other_request "places") Stub.scenario_world =
    (Returns {| response_sn_routing_matrix := None |},
     {| handler := handler Stub.scenario_world;
        trace := [Log_warn "wrong request: aborting"] |}).
Proof.
  assert (Hm : requested_api (Stub.other_request "places") ≠ street_network_routing_matrix)
    by (vm_compute; discriminate).
  assert (Hd : requested_api (Stub.other_request "places") ≠ direct_path)
    by (vm_compute; discriminate).
  split; [exact Hm |]. split; [exact Hd |].
  exact (C6_wrong_kind_empty_response rhs_first (Stub.other_request "places")
           Stub.scenario_world Hm Hd).
Defined.

Lemma C7_projection_is_total_or_fatal_witness :
  served Stub.lost_request ∧
  (∃ path_locations,
     project_locations rhs_first Stub.lost_request Stub.scenario_world =
       (Returns path_locations,
        (project_locations rhs_first Stub.lost_request Stub.scenario_world).2) ∧
     path_locations !! "" = None) ∧
  ∃ w', handle rhs_first Stub.lost_request Stub.scenario_world = (Fails std_out_of_range, w').
Proof.
  assert (Hserved : served Stub.lost_request) by (left; reflexivity).
  split; [exact Hserved |].
  assert (Hproj : project_locations rhs_first Stub.lost_request Stub.scenario_world =
                    (Returns (list_to_map [("a", "a"); ("c", "c")] : gmap string string),
                     (project_locations rhs_first Stub.lost_request Stub.scenario_world).2))
    by by_vm.
  split; [eexists; split; [exact Hproj | by_vm] |].
  apply (proj2 (proj2 (proj2 (C7_projection_is_total_or_fatal rhs_first Stub.lost_request
                                 Stub.scenario_world _ _ Hserved Hproj))) "").
  - vm_compute. set_solver.
  - by_vm.
Defined.

Lemma C8_unreachable_distance_threshold_witness :
  handle rhs_first Stub.scenario_request Stub.scenario_world =
    ((handle rhs_first Stub.scenario_request Stub.scenario_world).1,
     (handle rhs_first Stub.scenario_request Stub.scenario_world).2) ∧
  get_distance "walking" (float_of_int 600) = Stub.mps 4200 1 ∧
  ∃ evs srcs tgts costings tm,
    emitted Stub.scenario_world (handle rhs_first Stub.scenario_request Stub.scenario_world).2 evs ∧
    Call_SourceToTarget srcs tgts costings tm
      (get_distance (mode (sn_routing_matrix Stub.scenario_request))
         (float_of_int (max_duration (sn_routing_matrix Stub.scenario_request)))) ∈ evs.
Proof.
  assert (Hrun : handle rhs_first Stub.scenario_request Stub.scenario_world =
                   ((handle rhs_first Stub.scenario_request Stub.scenario_world).1,
                    (handle rhs_first Stub.scenario_request Stub.scenario_world).2))
    by by_vm.
  split; [exact Hrun |]. split; [by_vm |].
  destruct (C8_unreachable_distance_threshold rhs_first Stub.scenario_request
              Stub.scenario_world _ _ Hrun)
    as (evs & Hevs & _ & Hcall & _).
  destruct Hcall as (srcs & tgts & costings & tm & Hin).
  - left; reflexivity.
  - eexists. vm_compute. reflexivity.
  - exists evs, srcs, tgts, costings, tm. split; [exact Hevs | exact Hin].
Defined.




(** * The further properties on the stub engine *)

Lemma make_costing_option_frame_witness :
  (Costing_value pedestrian < 12)%nat ∧
  (Costing_value bicycle < 12)%nat ∧
  ∃ options,
    make_costing_option "bike" (Stub.mps 5 1) = Returns options ∧
    length (costing_options options) = 12%nat ∧
    make_costing_option "car" (Stub.mps 5 1) = Returns options.
Proof.
  assert (Hp : (Costing_value pedestrian < 12)%nat) by (vm_compute; lia).
  assert (Hb : (Costing_value bicycle < 12)%nat) by (vm_compute; lia).
  split; [exact Hp |]. split; [exact Hb |].
  destruct (make_costing_option_frame "bike" (Stub.mps 5 1) Hp Hb)
    as (options & Ho & Hlen & _ & Hany).
  exists options. split; [exact Ho |]. split; [exact Hlen | exact (Hany "car")].
Defined.

Lemma classify_results_reads_times_witness :
  time <$> Stub.scenario_results = time <$> Stub.scenario_results' ∧
  (-1) `mod` 2 ^ 32 = 4294967295 `mod` 2 ^ 32 ∧
  classify_results (-1) Stub.scenario_results
    = classify_results 4294967295 Stub.scenario_results'.
Proof.
  split; [reflexivity |]. split; [reflexivity |].
  apply classify_results_reads_times; reflexivity.
Defined.

Lemma classify_results_monotone_witness :
  0 ≤ 600 ∧ 600 ≤ 700 ∧ 700 < 2 ^ 32 ∧
  nb_unreached (classify_results 700 Stub.scenario_results)
    ≤ nb_unreached (classify_results 600 Stub.scenario_results).
Proof.
  split; [lia |]. split; [lia |]. split; [lia |].
  refine (proj2 (proj2 (proj2 (classify_results_monotone 600 700 Stub.scenario_results
                                 _ _ _)))); lia.
Defined.

Lemma handle_ignores_served_kind_witness :
  served Stub.direct_path_request ∧
  served Stub.scenario_request ∧
  sn_routing_matrix Stub.direct_path_request = sn_routing_matrix Stub.scenario_request ∧
  handle rhs_first Stub.direct_path_request Stub.scenario_world
    = handle rhs_first Stub.scenario_request Stub.scenario_world.
Proof.
  assert (H1 : served Stub.direct_path_request) by (right; reflexivity).
  assert (H2 : served Stub.scenario_request) by (left; reflexivity).
  split; [exact H1 |]. split; [exact H2 |]. split; [reflexivity |].
  exact (handle_ignores_served_kind rhs_first Stub.direct_path_request Stub.scenario_request
           Stub.scenario_world H1 H2 eq_refl).
Defined.

Lemma handle_order_irrelevant_witness :
  (¬ served Stub.scenario_request ∨ supported (mode (sn_routing_matrix Stub.scenario_request))) ∧
  handle rhs_first Stub.scenario_request Stub.scenario_world
    = handle lhs_first Stub.scenario_request Stub.scenario_world.
Proof.
  assert (Hm : ¬ served Stub.scenario_request ∨
               supported (mode (sn_routing_matrix Stub.scenario_request)))
    by (right; left; reflexivity).
  split; [exact Hm |].
  exact (handle_order_irrelevant Stub.scenario_request Stub.scenario_world Hm).
Defined.

Lemma construct_fills_slots_witness :
  (TravelMode_value kDrive < 4)%nat ∧
  (TravelMode_value kPedestrian < 4)%nat ∧
  (TravelMode_value kBicycle < 4)%nat ∧
  ∃ w', construct 0%nat tt tt 4 Stub.scenario_world = (Returns tt, w') ∧
        length (mode_costing (handler w')) = 4%nat.
Proof.
  assert (Hd : (TravelMode_value kDrive < 4)%nat) by (vm_compute; lia).
  assert (Hp : (TravelMode_value kPedestrian < 4)%nat) by (vm_compute; lia).
  assert (Hb : (TravelMode_value kBicycle < 4)%nat) by (vm_compute; lia).
  split; [exact Hd |]. split; [exact Hp |]. split; [exact Hb |].
  destruct (construct_fills_slots (H := Stub.scalars) (H0 := Stub.scenario_engine)
              0%nat tt tt 4 Stub.scenario_world Hd Hp Hb)
    as (w' & Hrun & _ & _ & _ & Hlen & _).
  exists w'. split; [exact Hrun | exact Hlen].
Defined.

Lemma consecutive_requests_witness :
  served Stub.scenario_request ∧ served Stub.bike_request ∧
  supported (mode (sn_routing_matrix Stub.scenario_request)) ∧
  supported (mode (sn_routing_matrix Stub.bike_request)) ∧
  (Costing_value pedestrian < 12)%nat ∧
  (Costing_value bicycle < 12)%nat ∧
  mode_index (mode (sn_routing_matrix Stub.scenario_request)) = Returns 1%nat ∧
  mode_index (mode (sn_routing_matrix Stub.bike_request)) = Returns 2%nat ∧
  (1 < length (mode_costing (handler Stub.scenario_world)))%nat ∧
  (2 < length (mode_costing (handler Stub.scenario_world)))%nat ∧
  ∃ o1 o2,
    make_costing_option "walking" (Stub.mps 7 5) = Returns o1 ∧
    make_costing_option "bike" (Stub.mps 5 1) = Returns o2 ∧
    mode_costing (handler (after_requests rhs_first
                             [Stub.scenario_request; Stub.bike_request] Stub.scenario_world))
      !! 2%nat = Some (Some (registered bicycle bicycle o2)) ∧
    mode_costing (handler (after_requests rhs_first
                             [Stub.scenario_request; Stub.bike_request] Stub.scenario_world))
      !! 1%nat = Some (Some (registered pedestrian pedestrian o1)).
Proof.
  assert (Hs1 : served Stub.scenario_request) by (left; reflexivity).
  assert (Hs2 : served Stub.bike_request) by (left; reflexivity).
  assert (Hm1 : supported (mode (sn_routing_matrix Stub.scenario_request)))
    by (left; reflexivity).
  assert (Hm2 : supported (mode (sn_routing_matrix Stub.bike_request)))
    by (right; left; reflexivity).
  assert (Hp : (Costing_value pedestrian < 12)%nat) by (vm_compute; lia).
  assert (Hb : (Costing_value bicycle < 12)%nat) by (vm_compute; lia).
  assert (Hi1 : mode_index (mode (sn_routing_matrix Stub.scenario_request)) = Returns 1%nat)
    by by_vm.
  assert (Hi2 : mode_index (mode (sn_routing_matrix Stub.bike_request)) = Returns 2%nat)
    by by_vm.
  assert (Hlt1 : (1 < length (mode_costing (handler Stub.scenario_world)))%nat)
    by (vm_compute; lia).
  assert (Hlt2 : (2 < length (mode_costing (handler Stub.scenario_world)))%nat)
    by (vm_compute; lia).
  repeat (split; [assumption |]).
  destruct (consecutive_requests rhs_first Stub.scenario_request Stub.bike_request
              Stub.scenario_world 1 2 Hs1 Hs2 Hm1 Hm2 Hp Hb Hi1 Hi2 Hlt1 Hlt2)
    as (c1 & o1 & c2 & o2 & Hc1 & Ho1 & Hc2 & Ho2 & Hslot2 & Hslot1 & _).
  injection Hc1 as <-. injection Hc2 as <-.
  exists o1, o2. split; [exact Ho1 |]. split; [exact Ho2 |].
  split; [exact Hslot2 | apply Hslot1; lia].
Defined.

Lemma collaborators_get_fresh_costing_witness :
  served Stub.scenario_request ∧
  supported (mode (sn_routing_matrix Stub.scenario_request)) ∧
  (Costing_value pedestrian < 12)%nat ∧
  (Costing_value bicycle < 12)%nat ∧
  mode_index (mode (sn_routing_matrix Stub.scenario_request)) = Returns 1%nat ∧
  (1 < length (mode_costing (handler Stub.scenario_world)))%nat ∧
  ∃ options evs,
    make_costing_option (mode (sn_routing_matrix Stub.scenario_request))
      (speed (sn_routing_matrix Stub.scenario_request)) = Returns options ∧
    emitted Stub.scenario_world
      (handle rhs_first Stub.scenario_request Stub.scenario_world).2 evs ∧
    (∀ places mode_ c, Call_projector places mode_ c ∈ evs →
                       c = Some (registered pedestrian pedestrian options)).
Proof.
  assert (Hserved : served Stub.scenario_request) by (left; reflexivity).
  assert (Hmode : supported (mode (sn_routing_matrix Stub.scenario_request)))
    by (left; reflexivity).
  assert (Hp : (Costing_value pedestrian < 12)%nat) by (vm_compute; lia).
  assert (Hb : (Costing_value bicycle < 12)%nat) by (vm_compute; lia).
  assert (Hi : mode_index (mode (sn_routing_matrix Stub.scenario_request)) = Returns 1%nat)
    by by_vm.
  assert (Hlt : (1 < length (mode_costing (handler Stub.scenario_world)))%nat)
    by (vm_compute; lia).
  repeat (split; [assumption |]).
  destruct (collaborators_get_fresh_costing rhs_first Stub.scenario_request
              Stub.scenario_world 1 Hserved Hmode Hp Hb Hi Hlt)
    as (costing & options & evs & Hc & Ho & Hevs & Hproj & _).
  injection Hc as <-.
  exists options, evs. split; [exact Ho |]. split; [exact Hevs | exact Hproj].
Defined.


Lemma response_call_sequence_witness :
  served Stub.scenario_request ∧
  handle rhs_first Stub.scenario_request Stub.scenario_world =
    (Returns Stub.scenario_response,
     (handle rhs_first Stub.scenario_request Stub.scenario_world).2) ∧
  supported (mode (sn_routing_matrix Stub.scenario_request)).
Proof.
  assert (Hserved : served Stub.scenario_request) by (left; reflexivity).
  assert (Hrun : handle rhs_first Stub.scenario_request Stub.scenario_world =
                   (Returns Stub.scenario_response,
                    (handle rhs_first Stub.scenario_request Stub.scenario_world).2))
    by by_vm.
  split; [exact Hserved |]. split; [exact Hrun |].
  exact (proj1 (response_call_sequence rhs_first Stub.scenario_request Stub.scenario_world
                  _ _ Hserved Hrun)).
Defined.

Lemma empty_request_single_empty_row_witness :
  served Stub.empty_request ∧
  (origins (sn_routing_matrix Stub.empty_request) = [] ∨
   destinations (sn_routing_matrix Stub.empty_request) = []) ∧
  solve (H0 := Stub.engine []) rhs_first Stub.empty_request (Stub.world0 []) =
    (Returns [], (solve (H0 := Stub.engine []) rhs_first Stub.empty_request (Stub.world0 [])).2) ∧
  ∃ w',
    handle (H0 := Stub.engine []) rhs_first Stub.empty_request (Stub.world0 []) =
      (Returns {| response_sn_routing_matrix :=
                    Some {| rows := [ {| routing_response := [] |} ] |} |}, w') ∧
    Log_info "Request done with 0 unknown and 0 unreached" ∈ trace w'.
Proof.
  assert (Hserved : served Stub.empty_request) by (left; reflexivity).
  assert (Hempty : origins (sn_routing_matrix Stub.empty_request) = [] ∨
                   destinations (sn_routing_matrix Stub.empty_request) = [])
    by (left; reflexivity).
  assert (Hsolve : solve (H0 := Stub.engine []) rhs_first Stub.empty_request (Stub.world0 []) =
                     (Returns [],
                      (solve (H0 := Stub.engine []) rhs_first Stub.empty_request
                         (Stub.world0 [])).2))
    by by_vm.
  split; [exact Hserved |]. split; [exact Hempty |]. split; [exact Hsolve |].
  exact (proj1 (empty_request_single_empty_row (H0 := Stub.engine []) rhs_first
                  Stub.empty_request (Stub.world0 []) _ [] Hserved Hempty Hsolve) eq_refl).
Defined.
